(** * Japanese-Word-Dumper: [api_functions.py]

    A shallow embedding of [get_definitions] and [process_file] and the
    properties of the batch pipeline: tokenisation of the input lines, the
    lookup on a dictionary response, the records written to the output
    file, the trailing not-found section and the progress fractions.

    Conventions of the embedding.
    - A Python [str] is the list of its code points ([N]).
    - A value decoded from JSON is a [pyval]; a [dict] keeps its items in
      insertion order.
    - A Python expression that may raise evaluates to a [result].
    - The file system, the number of requests sent and the calls received
      by the three callbacks form the [world] threaded through
      [process_file].  A file is the text it decodes to; the callbacks
      return normally.
    - The progress fraction, a float in the source, is kept as the exact
      rational quotient of the two integers. *)

From Stdlib Require Import Strings.String Strings.Ascii.
From Stdlib Require Import List Bool Arith ZArith NArith QArith Lia.
Import ListNotations.

Local Open Scope N_scope.

(** ** Text *)

(** A Python string: a sequence of Unicode code points. *)
Definition str := list N.

(** String literals of the source are written as UTF-8 Rocq strings and
    decoded to code points. *)
Fixpoint utf8_decode (bs : list N) : str :=
  match bs with
  | [] => []
  | b0 :: r0 =>
    if b0 <? 0x80 then b0 :: utf8_decode r0
    else
      match r0 with
      | [] => []
      | b1 :: r1 =>
        if b0 <? 0xE0 then
          N.lor (N.shiftl (N.land b0 0x1F) 6) (N.land b1 0x3F)
            :: utf8_decode r1
        else
          match r1 with
          | [] => []
          | b2 :: r2 =>
            if b0 <? 0xF0 then
              N.lor (N.shiftl (N.land b0 0x0F) 12)
                (N.lor (N.shiftl (N.land b1 0x3F) 6) (N.land b2 0x3F))
                :: utf8_decode r2
            else
              match r2 with
              | [] => []
              | b3 :: r3 =>
                N.lor (N.shiftl (N.land b0 0x07) 18)
                  (N.lor (N.shiftl (N.land b1 0x3F) 12)
                     (N.lor (N.shiftl (N.land b2 0x3F) 6) (N.land b3 0x3F)))
                  :: utf8_decode r3
              end
          end
      end
  end.

Definition lit (s : string) : str :=
  utf8_decode (map N_of_ascii (list_ascii_of_string s)).
Arguments lit s%_string.

Definition str_eqb (a b : str) : bool :=
  if list_eq_dec N.eq_dec a b then true else false.

(** Truth value of a string: [bool(s)]. *)
Definition str_truthy (s : str) : bool :=
  match s with [] => false | _ :: _ => true end.

Definition COMMA : N := 0x2C.             (* ',' *)
Definition SPACE : N := 0x20.             (* ' ' *)
Definition IDEOGRAPHIC_COMMA : N := 0x3001. (* '、' *)
Definition LF : N := 0x0A.
Definition CR : N := 0x0D.

(** [str.isspace] on one character: the characters [str.strip()] removes. *)
Definition isspace (c : N) : bool :=
  ((0x09 <=? c) && (c <=? 0x0D)) || ((0x1C <=? c) && (c <=? 0x20))
  || (c =? 0x85) || (c =? 0xA0) || (c =? 0x1680)
  || ((0x2000 <=? c) && (c <=? 0x200A))
  || (c =? 0x2028) || (c =? 0x2029) || (c =? 0x202F) || (c =? 0x205F)
  || (c =? 0x3000).

Fixpoint lstrip (s : str) : str :=
  match s with
  | [] => []
  | c :: t => if isspace c then lstrip t else s
  end.

Definition rstrip (s : str) : str := rev (lstrip (rev s)).

(** [s.strip()] *)
Definition strip (s : str) : str := rstrip (lstrip s).

(** [s.replace(old, new)] for one-character [old] and [new]. *)
Definition replace (old new : N) (s : str) : str :=
  map (fun c => if c =? old then new else c) s.

(** [s.split(sep)] for a one-character separator: never the empty list. *)
Fixpoint split (sep : N) (s : str) : list str :=
  match s with
  | [] => [[]]
  | c :: t =>
    if c =? sep then [] :: split sep t
    else
      match split sep t with
      | [] => [[c]]
      | p :: ps => (c :: p) :: ps
      end
  end.

(** [sep.join(parts)] on strings. *)
Fixpoint join (sep : str) (parts : list str) : str :=
  match parts with
  | [] => []
  | [p] => p
  | p :: ps => p ++ sep ++ join sep ps
  end.

(** Line 60: the words of one input line,
    [[word.strip() for word in
        line.replace('、', ',').replace(' ', ',').split(',')
      if word.strip()]]. *)
Definition words (line : str) : list str :=
  map strip
    (filter (fun word => str_truthy (strip word))
       (split COMMA
          (replace SPACE COMMA (replace IDEOGRAPHIC_COMMA COMMA line)))).

(** Line 53, the summand of the first pass:
    [len(line.replace('、', ',').strip().replace(' ', ',').split(','))]. *)
Definition count_line (line : str) : Z :=
  Z.of_nat
    (length
       (split COMMA
          (replace SPACE COMMA
             (strip (replace IDEOGRAPHIC_COMMA COMMA line))))).

(** Reading a text file: newline translation of text mode, then iteration
    over the lines, each keeping its terminating newline. *)
Fixpoint universal_newlines (s : str) : str :=
  match s with
  | [] => []
  | c :: t =>
    if c =? CR then
      LF :: match t with
            | [] => []
            | d :: t' =>
              if d =? LF then universal_newlines t' else universal_newlines t
            end
    else c :: universal_newlines t
  end.

Fixpoint keepends (s : str) : list str :=
  match s with
  | [] => []
  | c :: t =>
    if c =? LF then [c] :: keepends t
    else
      match keepends t with
      | [] => [[c]]
      | l :: ls => (c :: l) :: ls
      end
  end.

Definition file_lines (content : str) : list str :=
  keepends (universal_newlines content).

(** Line 53: [total_words], the sum over the lines of the file. *)
Definition total_words (content : str) : Z :=
  fold_right Z.add 0%Z (map count_line (file_lines content)).

(** The words of the second pass, over all the lines, in order. *)
Definition file_words (content : str) : list str :=
  flat_map words (file_lines content).

(** The tokenisation in the words of the specification: split on commas,
    Japanese commas and spaces, trim every piece, drop the empty ones. *)
Definition is_separator (c : N) : bool :=
  (c =? COMMA) || (c =? IDEOGRAPHIC_COMMA) || (c =? SPACE).

Fixpoint split_on (p : N -> bool) (s : str) : list str :=
  match s with
  | [] => [[]]
  | c :: t =>
    if p c then [] :: split_on p t
    else
      match split_on p t with
      | [] => [[c]]
      | x :: xs => (c :: x) :: xs
      end
  end.

Definition spec_tokens (line : str) : list str :=
  filter str_truthy (map strip (split_on is_separator line)).

(** ** Python values and exceptions *)

Inductive exn : Set :=
| KeyError | IndexError | TypeError | AttributeError | ZeroDivisionError
| OSError               (* [open] failed *)
| ConnectionError       (* [requests.get] failed: no response at all *)
| JSONDecodeError.      (* [response.json()] on a body that is not JSON *)

Inductive result (A : Type) : Type :=
| Ok (a : A)
| Raise (e : exn).
Arguments Ok {A} a.
Arguments Raise {A} e.

Definition bind {A B} (r : result A) (k : A -> result B) : result B :=
  match r with
  | Ok a => k a
  | Raise e => Raise e
  end.

Declare Scope py_scope.
Delimit Scope py_scope with py.
Notation "x <- e ;; k" := (bind e (fun x => k))
  (at level 61, e at next level, right associativity) : py_scope.

Fixpoint mapM {A B} (f : A -> result B) (l : list A) : result (list B) :=
  match l with
  | [] => Ok []
  | a :: t => bind (f a) (fun b => bind (mapM f t) (fun bs => Ok (b :: bs)))
  end.

(** The binary64 values a JSON number with a fraction or an exponent
    decodes to. *)
Inductive float64 : Set :=
| FZero (negative : bool)
| FInfinity (negative : bool)
| FNaN
| FFinite (negative : bool) (mantissa : positive) (exponent : Z).

Local Set Warnings "-register-all".

(** What [json.loads] produces.  A [dict] lists its items in insertion
    order; a key is read at its first item and iterated once. *)
Inductive pyval : Type :=
| PNone
| PBool (b : bool)
| PInt (z : Z)
| PFloat (f : float64)
| PStr (s : str)
| PList (l : list pyval)
| PDict (items : list (str * pyval)).

Fixpoint dict_get (items : list (str * pyval)) (key : str) : option pyval :=
  match items with
  | [] => None
  | (k, v) :: t => if str_eqb k key then Some v else dict_get t key
  end.

Fixpoint dict_keys (items : list (str * pyval)) : list str :=
  match items with
  | [] => []
  | (k, _) :: t => k :: filter (fun k' => negb (str_eqb k' k)) (dict_keys t)
  end.

(** [bool(v)] *)
Definition py_truthy (v : pyval) : bool :=
  match v with
  | PNone => false
  | PBool b => b
  | PInt z => negb (z =? 0)%Z
  | PFloat (FZero _) => false
  | PFloat _ => true
  | PStr s => str_truthy s
  | PList [] => false
  | PList (_ :: _) => true
  | PDict [] => false
  | PDict (_ :: _) => true
  end.

(** [v[key]] for a string key. *)
Definition py_getitem (v : pyval) (key : str) : result pyval :=
  match v with
  | PDict items =>
    match dict_get items key with
    | Some x => Ok x
    | None => Raise KeyError
    end
  | _ => Raise TypeError
  end.

(** [v[0]] *)
Definition py_getitem0 (v : pyval) : result pyval :=
  match v with
  | PList (x :: _) => Ok x
  | PList [] => Raise IndexError
  | PStr (c :: _) => Ok (PStr [c])
  | PStr [] => Raise IndexError
  | PDict _ => Raise KeyError   (* the keys of a decoded object are strings *)
  | _ => Raise TypeError
  end.

(** [v.get(key, default)] *)
Definition py_get (v : pyval) (key : str) (default : pyval) : result pyval :=
  match v with
  | PDict items =>
    match dict_get items key with
    | Some x => Ok x
    | None => Ok default
    end
  | _ => Raise AttributeError
  end.

(** [v[:3]].  On a dict the slice is looked up as a key and the lookup
    raises ([TypeError] before Python 3.12, [KeyError] since). *)
Definition py_slice3 (v : pyval) : result pyval :=
  match v with
  | PList l => Ok (PList (firstn 3 l))
  | PStr s => Ok (PStr (firstn 3 s))
  | _ => Raise TypeError
  end.

(** The items of [for x in v]. *)
Definition py_iter (v : pyval) : result (list pyval) :=
  match v with
  | PList l => Ok l
  | PStr s => Ok (map (fun c => PStr [c]) s)
  | PDict items => Ok (map PStr (dict_keys items))
  | _ => Raise TypeError
  end.

(** ** The dictionary service *)

(** What [requests.get] returns: the status code and the value
    [response.json()] decodes the body to ([None]: the body is not JSON and
    [response.json()] raises). *)
Record response : Type := Response {
  status_code : Z;
  json : option pyval
}.

Definition or_raise {A} (e : exn) (o : option A) : result A :=
  match o with
  | Some a => Ok a
  | None => Raise e
  end.

Definition SEARCH_URL : str :=
  lit "https://jisho.org/api/v1/search/words?keyword=".

Local Open Scope py_scope.

(** [get_definitions(word)], lines 16-35.  [requests_get] is [requests.get]
    at the time of the call ([None]: the request fails without a response
    and [requests.get] raises); the Python [None] is [None], the returned
    tuple is [Some (japanese_word, reading, flattened_definitions)]. *)
Definition get_definitions (requests_get : str -> option response)
    (word : str) : result (option (pyval * pyval * list pyval)) :=
  let url := SEARCH_URL ++ word in
  response <- or_raise ConnectionError (requests_get url) ;;
  if negb (status_code response =? 200)%Z then Ok None else
  data <- or_raise JSONDecodeError (json response) ;;
  results <- py_getitem data (lit "data") ;;
  if negb (py_truthy results) then Ok None else
  entry <- py_getitem0 results ;;
  japanese <- py_getitem entry (lit "japanese") ;;
  form <- py_getitem0 japanese ;;
  reading <- py_get form (lit "reading") PNone ;;
  japanese_word <- py_get form (lit "word") reading ;;
  senses <- py_getitem entry (lit "senses") ;;
  first3 <- py_slice3 senses ;;
  groups <- py_iter first3 ;;
  definitions <-
    mapM (fun sense => py_getitem sense (lit "english_definitions")) groups ;;
  sublists <- mapM py_iter definitions ;;
  let flattened_definitions := firstn 3 (concat sublists) in
  if negb (py_truthy entry && py_truthy reading && py_truthy japanese_word
           && match flattened_definitions with [] => false | _ => true end)
  then Ok None
  else Ok (Some (japanese_word, reading, flattened_definitions)).

(** ** The batch processor *)

(** The calls the host interface receives. The progress fraction is kept as
    the exact quotient of the two integers. *)
Inductive ui_call : Type :=
| UpdateCheckingLabel (word : str)
| ProgressCallback (progress : Q)
| ClearCheckingLabel.

(** The environment of a run: the text files by path ([None]: the path
    cannot be opened for reading), the number of requests sent so far and
    the calls received by the callbacks so far. *)
Record world : Type := World {
  files : str -> option str;
  requests_sent : nat;
  ui_calls : list ui_call
}.

(** [open(path, 'w')] followed by writing [content] and closing. *)
Definition write_file (fs : str -> option str) (path content : str)
    : str -> option str :=
  fun p => if str_eqb p path then Some content else fs p.

(** The variables of [process_file] while the second [with] block runs;
    [outfile] is the text written to the output file so far. *)
Record run : Type := Run {
  outfile : str;
  not_found_words : list str;
  words_checked : Z;
  sent : nat;
  calls : list ui_call
}.

Inductive outcome : Type :=
| Done (st : run)
| Raised (e : exn) (st : run).

Definition write (text : str) (st : run) : run :=
  Run (outfile st ++ text) (not_found_words st) (words_checked st)
      (sent st) (calls st).

Definition call (c : ui_call) (st : run) : run :=
  Run (outfile st) (not_found_words st) (words_checked st)
      (sent st) (calls st ++ [c]).

(** [sep.join(items)]: every item must be a string. *)
Definition py_join (sep : str) (items : list pyval) : result str :=
  parts <- mapM (fun v => match v with
                          | PStr s => Ok s
                          | _ => Raise TypeError
                          end) items ;;
  Ok (join sep parts).

(** [a / b] on integers. *)
Definition py_truediv (a b : Z) : result Q :=
  if (b =? 0)%Z then Raise ZeroDivisionError
  else Ok (inject_Z a / inject_Z b)%Q.

(** Lines 79-82. *)
Definition write_not_found (st : run) : run :=
  match not_found_words st with
  | [] => st
  | _ :: _ =>
    fold_left (fun st word => write (word ++ [LF]) st) (not_found_words st)
      (write ([LF] ++ lit "Definition Not Found:" ++ [LF]) st)
  end.

Section Process.

(** The network: the answer to the [n]-th request of the run, by URL. *)
Variable net : nat -> str -> option response.

(** [format(v)] as an f-string field renders it, and [a == b].  On strings
    they are the identity and the comparison of the characters. *)
Variable py_str : pyval -> str.
Variable py_eq : pyval -> pyval -> bool.

(** Lines 67-71: the record of a found word. *)
Definition format_record (japanese_word reading : pyval)
    (definitions : list pyval) : result str :=
  if py_eq japanese_word reading then
    joined <- py_join (lit ", ") definitions ;;
    Ok (py_str reading ++ lit ";" ++ joined ++ lit ";" ++ [LF])
  else
    joined <- py_join (lit ", ") definitions ;;
    Ok (py_str japanese_word ++ lit "[" ++ py_str reading ++ lit "];"
          ++ joined ++ lit ";" ++ [LF]).

(** Lines 66-73: a record for a found word, the not-found list for the
    others. *)
Definition record_result (word : str)
    (looked_up : option (pyval * pyval * list pyval)) (st : run)
    : result run :=
  match looked_up with
  | Some (japanese_word, reading, definitions) =>
    line <- format_record japanese_word reading definitions ;;
    Ok (write line st)
  | None =>
    Ok (Run (outfile st) (not_found_words st ++ [word])
            (words_checked st) (sent st) (calls st))
  end.

(** Lines 75-77: count the word and report the progress. *)
Definition report_progress (total_words : Z) (st : run) : outcome :=
  let st := Run (outfile st) (not_found_words st)
                (words_checked st + 1) (sent st) (calls st) in
  match py_truediv (words_checked st) total_words with
  | Raise e => Raised e st
  | Ok progress => Done (call (ProgressCallback progress) st)
  end.

(** Lines 63-77: the body of [for word in words]; the lookup sends one
    request. *)
Definition process_word (total_words : Z) (word : str) (st : run) : outcome :=
  let st := call (UpdateCheckingLabel word) st in
  let looked_up := get_definitions (net (sent st)) word in
  let st := Run (outfile st) (not_found_words st) (words_checked st)
                (S (sent st)) (calls st) in
  match looked_up with
  | Raise e => Raised e st
  | Ok result =>
    match record_result word result st with
    | Raise e => Raised e st
    | Ok st => report_progress total_words st
    end
  end.

Fixpoint process_words (total_words : Z) (ws : list str) (st : run)
    : outcome :=
  match ws with
  | [] => Done st
  | word :: rest =>
    match process_word total_words word st with
    | Done st' => process_words total_words rest st'
    | Raised e st' => Raised e st'
    end
  end.

(** Lines 58-77: [for line in infile]. *)
Fixpoint process_lines (total_words : Z) (lines : list str) (st : run)
    : outcome :=
  match lines with
  | [] => Done st
  | line :: rest =>
    match process_words total_words (words line) st with
    | Done st' => process_lines total_words rest st'
    | Raised e st' => Raised e st'
    end
  end.

(** [process_file], lines 49-84.  Both files are closed when the second
    [with] block is left, also by an exception: the output file then holds
    what was written until that point.  The lines of the second pass are
    read after the output file has been opened (and emptied).  Every path
    can be opened for writing. *)
Definition process_file (input_filename output_filename : str) (w : world)
    : result unit * world :=
  match files w input_filename with
  | None => (Raise OSError, w)
  | Some content =>
    let total := total_words content in
    let opened := write_file (files w) output_filename [] in
    let lines :=
      match opened input_filename with
      | Some content' => file_lines content'
      | None => []
      end in
    match process_lines total lines
            (Run [] [] 0 (requests_sent w) (ui_calls w)) with
    | Raised e st =>
      (Raise e,
       World (write_file (files w) output_filename (outfile st))
             (sent st) (calls st))
    | Done st =>
      let st := write_not_found st in
      (Ok tt,
       World (write_file (files w) output_filename (outfile st))
             (sent st) (calls st ++ [ClearCheckingLabel]))
    end
  end.

(** The lookups of a run over the words [ws], the first of them answered
    as request number [n]: every word with what [get_definitions] returns
    for it. *)
Fixpoint lookups (n : nat) (ws : list str)
    : list (str * result (option (pyval * pyval * list pyval))) :=
  match ws with
  | [] => []
  | word :: rest => (word, get_definitions (net n) word) :: lookups (S n) rest
  end.

(** The records of the found words, in order. *)
Definition records
    (answers : list (str * result (option (pyval * pyval * list pyval))))
    : str :=
  concat
    (map (fun answer =>
            match snd answer with
            | Ok (Some (japanese_word, reading, definitions)) =>
              match format_record japanese_word reading definitions with
              | Ok line => line
              | Raise _ => []
              end
            | _ => []
            end) answers).

End Process.

(** The words whose lookup returned no result, in order, once per lookup. *)
Definition missing {A}
    (answers : list (str * result (option A))) : list str :=
  flat_map (fun answer =>
              match snd answer with
              | Ok None => [fst answer]
              | _ => []
              end) answers.

(** A rendering and an equality that are right on strings, for running the
    model on well-typed answers. *)
Definition str_of (v : pyval) : str :=
  match v with PStr s => s | _ => [] end.

Definition eq_of (a b : pyval) : bool :=
  match a, b with PStr x, PStr y => str_eqb x y | _, _ => false end.

(** ** Vocabulary of the properties *)

(** A string of whitespace only. *)
Definition blank (s : str) : bool := forallb isspace s.

(** The pieces of a split that hold a character other than whitespace. *)
Definition solid (pieces : list str) : nat :=
  length (filter (fun x => negb (blank x)) pieces).

(** The separators left after the Japanese commas have been replaced. *)
Definition comma_or_space (c : N) : bool := (c =? COMMA) || (c =? SPACE).

(** The exceptions of [get_definitions] and of the formatting of a record:
    every one but [ZeroDivisionError] and [OSError]. *)
Definition lookup_exn (e : exn) : Prop :=
  e <> ZeroDivisionError /\ e <> OSError.

Definition raises_lookup_exn {A} (r : result A) : Prop :=
  forall e, r = Raise e -> lookup_exn e.

Definition state_of (o : outcome) : run :=
  match o with
  | Done st => st
  | Raised _ st => st
  end.

Definition error_of (o : outcome) : option exn :=
  match o with
  | Done _ => None
  | Raised e _ => Some e
  end.

(** A progress fraction inside the unit interval. *)
Definition fraction_ok (c : ui_call) : Prop :=
  match c with
  | ProgressCallback progress => (0 <= progress /\ progress <= 1)%Q
  | _ => True
  end.

(** The text after the records: nothing when every word was found, else a
    blank line, the header line and one line per word. *)
Definition not_found_section (missing : list str) : str :=
  match missing with
  | [] => []
  | _ :: _ =>
    [LF] ++ lit "Definition Not Found:" ++ [LF]
      ++ concat (map (fun word => word ++ [LF]) missing)
  end.

(** ** The documented shape of an answer *)

(** The body the service documents: a list [data] of entries, each with its
    [japanese] forms (a [word] and a [reading], either of which may be
    missing) and its [senses] (each with its [english_definitions]). *)
Record japanese_form : Type := JapaneseForm {
  form_word : option str;
  form_reading : option str
}.

Record sense : Type := Sense {
  english_definitions : list str
}.

Record entry : Type := Entry {
  japanese : list japanese_form;
  senses : list sense
}.

(** A decoded value that carries a form, a sense, an entry, a body; other
    keys may be present. *)
Definition is_form (v : pyval) (f : japanese_form) : Prop :=
  exists items,
    v = PDict items
    /\ dict_get items (lit "word") = option_map PStr (form_word f)
    /\ dict_get items (lit "reading") = option_map PStr (form_reading f).

Definition is_sense (v : pyval) (s : sense) : Prop :=
  exists items,
    v = PDict items
    /\ dict_get items (lit "english_definitions")
       = Some (PList (map PStr (english_definitions s))).

Definition is_entry (v : pyval) (e : entry) : Prop :=
  exists items forms groups,
    v = PDict items
    /\ dict_get items (lit "japanese") = Some (PList forms)
    /\ Forall2 is_form forms (japanese e)
    /\ dict_get items (lit "senses") = Some (PList groups)
    /\ Forall2 is_sense groups (senses e).

Definition is_body (v : pyval) (data : list entry) : Prop :=
  exists items results,
    v = PDict items
    /\ dict_get items (lit "data") = Some (PList results)
    /\ Forall2 is_entry results data.

(** The surface form of a form: its word, or its reading when it has no
    word. *)
Definition surface_of (f : japanese_form) : option str :=
  match form_word f with
  | Some w => Some w
  | None => form_reading f
  end.

(** The definitions of an entry: those of its first three senses, at most
    three of them. *)
Definition definitions_of (e : entry) : list str :=
  firstn 3 (concat (map english_definitions (firstn 3 (senses e)))).

Definition absent_or_empty (o : option str) : Prop :=
  o = None \/ o = Some [].

(** The lookup in the words of the specification, on the entries of a body
    of the documented shape: no result on an empty list; else the reading
    and the surface form of the first form of the first entry and its
    definitions, or no result when one of the three is missing or empty.
    (An entry without forms: the source indexes the empty list.) *)
Definition spec_lookup (data : list entry)
    : result (option (pyval * pyval * list pyval)) :=
  match data with
  | [] => Ok None
  | e :: _ =>
    match japanese e with
    | [] => Raise IndexError
    | f :: _ =>
      match form_reading f, surface_of f, definitions_of e with
      | Some (rc :: r), Some (sc :: s), d :: ds =>
        Ok (Some (PStr (sc :: s), PStr (rc :: r), map PStr (d :: ds)))
      | _, _, _ => Ok None
      end
    end
  end.

(** ** Bodies on which a lookup returns *)

Definition has_key (key : str) (v : pyval) : Prop :=
  exists items x, v = PDict items /\ dict_get items key = Some x.

(** The body has a [data] key and, when its value is true, that value is a
    list whose first entry has a non-empty [japanese] list and [senses] of
    which the [examined] ones have an [english_definitions] key. *)
Definition shaped (examined : list pyval -> list pyval) (body : pyval)
    : Prop :=
  exists items results,
    body = PDict items
    /\ dict_get items (lit "data") = Some results
    /\ (py_truthy results = true ->
        exists eitems rest form forms senses groups,
          results = PList (PDict eitems :: rest)
          /\ dict_get eitems (lit "japanese") = Some (PList (form :: forms))
          /\ dict_get eitems (lit "senses") = Some senses
          /\ py_iter senses = Ok groups
          /\ Forall (has_key (lit "english_definitions")) (examined groups)).

(** ** Data of the worked runs *)

(** The answer for 犬: one entry, read いぬ, with the sense [dog]. *)
Definition inu_response : response :=
  Response 200
    (Some (PDict [(lit "data", PList [PDict [
       (lit "slug", PStr (lit "犬"));
       (lit "japanese",
        PList [PDict [(lit "word", PStr (lit "犬"));
                      (lit "reading", PStr (lit "いぬ"))]]);
       (lit "senses",
        PList [PDict [(lit "english_definitions",
                       PList [PStr (lit "dog")])]])]])])).

Definition inu_data : list entry :=
  [Entry [JapaneseForm (Some (lit "犬")) (Some (lit "いぬ"))]
         [Sense [lit "dog"]]].

(** An answer whose fourth sense has no [english_definitions]. *)
Definition four_senses_response : response :=
  Response 200
    (Some (PDict [(lit "data", PList [PDict [
       (lit "japanese",
        PList [PDict [(lit "word", PStr (lit "犬"));
                      (lit "reading", PStr (lit "いぬ"))]]);
       (lit "senses",
        PList [PDict [(lit "english_definitions", PList [PStr (lit "dog")])];
               PDict [(lit "english_definitions", PList [])];
               PDict [(lit "english_definitions", PList [])];
               PDict []])]])])).

(** A service that knows 犬 only, one that answers 404 to everything, and
    a network that is down. *)
Definition inu_dictionary : nat -> str -> option response :=
  fun _ url =>
    if str_eqb url (SEARCH_URL ++ lit "犬") then Some inu_response
    else Some (Response 404 None).

Definition empty_dictionary : nat -> str -> option response :=
  fun _ _ => Some (Response 404 None).

Definition no_network : nat -> str -> option response :=
  fun _ _ => None.

Definition one_file (path content : str) : str -> option str :=
  fun p => if str_eqb p path then Some content else None.

Definition IN_TXT : str := lit "in.txt".
Definition OUT_TXT : str := lit "out.txt".

(** ** Vocabulary of the further properties *)

(** The words between the characters [p] holds for: the pieces trimmed, the
    empty ones dropped. *)
Definition tokens_on (p : N -> bool) (s : str) : list str :=
  filter str_truthy (map strip (split_on p s)).

(** A word as an input line can carry it: not empty, no whitespace at
    either end, no comma, Japanese comma or space inside. *)
Definition clean_token (word : str) : Prop :=
  word <> [] /\ strip word = word
  /\ forallb (fun c => negb (is_separator c)) word = true.

(** A separator of words, or the newline that ends a line. *)
Definition separator_or_lf (c : N) : bool := is_separator c || (c =? LF).

(** A separator of words or of lines. *)
Definition is_break (c : N) : bool :=
  is_separator c || (c =? LF) || (c =? CR).

(** The calls of a run that handles the words [ws] after [k] others: for
    every word the label, then the fraction of the words counted so far. *)
Fixpoint progress_calls (total k : Z) (ws : list str) : list ui_call :=
  match ws with
  | [] => []
  | word :: rest =>
    UpdateCheckingLabel word
      :: ProgressCallback (inject_Z (k + 1) / inject_Z total)
      :: progress_calls total (k + 1) rest
  end.

(** The answer for いぬ written in kana: the form has a reading and no
    word. *)
Definition kana_response : response :=
  Response 200
    (Some (PDict [(lit "data", PList [PDict [
       (lit "japanese", PList [PDict [(lit "reading", PStr (lit "いぬ"))]]);
       (lit "senses",
        PList [PDict [(lit "english_definitions",
                       PList [PStr (lit "dog")])]])]])])).

Definition kana_data : list entry :=
  [Entry [JapaneseForm None (Some (lit "いぬ"))] [Sense [lit "dog"]]].

Definition kana_dictionary : nat -> str -> option response :=
  fun _ _ => Some kana_response.

(** An answer whose first form has an empty word beside its reading. *)
Definition empty_word_response : response :=
  Response 200
    (Some (PDict [(lit "data", PList [PDict [
       (lit "japanese",
        PList [PDict [(lit "word", PStr []);
                      (lit "reading", PStr (lit "いぬ"))]]);
       (lit "senses",
        PList [PDict [(lit "english_definitions",
                       PList [PStr (lit "dog")])]])]])])).

(** An answer whose first entry has no form. *)
Definition no_forms_response : response :=
  Response 200
    (Some (PDict [(lit "data", PList [PDict [
       (lit "japanese", PList []);
       (lit "senses", PList [])]])])).

(** An answer for 犬 with three senses. *)
Definition inu_three_response : response :=
  Response 200
    (Some (PDict [(lit "data", PList [
       PDict [
         (lit "japanese",
          PList [PDict [(lit "word", PStr (lit "犬"));
                        (lit "reading", PStr (lit "いぬ"))]]);
         (lit "senses",
          PList [PDict [(lit "english_definitions", PList [PStr (lit "dog")])];
                 PDict [(lit "english_definitions", PList [])];
                 PDict [(lit "english_definitions", PList [])]])]])])).

Definition inu_three_data : list entry :=
  [Entry [JapaneseForm (Some (lit "犬")) (Some (lit "いぬ"))]
         [Sense [lit "dog"]; Sense []; Sense []]].

(** The same answer with a second form, a fourth sense and a second
    entry. *)
Definition inu_long_response : response :=
  Response 200
    (Some (PDict [(lit "data", PList [
       PDict [
         (lit "japanese",
          PList [PDict [(lit "word", PStr (lit "犬"));
                        (lit "reading", PStr (lit "いぬ"))];
                 PDict [(lit "word", PStr (lit "狗"));
                        (lit "reading", PStr (lit "いぬ"))]]);
         (lit "senses",
          PList [PDict [(lit "english_definitions", PList [PStr (lit "dog")])];
                 PDict [(lit "english_definitions", PList [])];
                 PDict [(lit "english_definitions", PList [])];
                 PDict [(lit "english_definitions",
                         PList [PStr (lit "spy")])]])];
       PDict [
         (lit "japanese", PList [PDict [(lit "reading", PStr (lit "けん"))]]);
         (lit "senses", PList [])]])])).

Definition inu_long_data : list entry :=
  [Entry [JapaneseForm (Some (lit "犬")) (Some (lit "いぬ"));
          JapaneseForm (Some (lit "狗")) (Some (lit "いぬ"))]
         [Sense [lit "dog"]; Sense []; Sense []; Sense [lit "spy"]];
   Entry [JapaneseForm None (Some (lit "けん"))] []].

(** A text without line feed. *)
Definition no_lf (s : str) : bool := forallb (fun c => negb (c =? LF)) s.

(** The world of the worked runs: one input file, [犬, 猫]. *)
Definition two_words_world : world :=
  World (one_file IN_TXT (lit "犬, 猫" ++ [LF])) 0 [].




(** * Properties *)

(** The literals of the source decode to the characters meant. *)
Lemma lit_separators :
  lit "、, " = [IDEOGRAPHIC_COMMA; COMMA; SPACE]
  /\ isspace SPACE = true /\ isspace LF = true
  /\ isspace COMMA = false /\ isspace IDEOGRAPHIC_COMMA = false.
Proof. repeat split. Qed.

(** ** Tokenisation *)

Lemma map_filter_truthy (f : str -> str) (l : list str) :
  map f (filter (fun x => str_truthy (f x)) l) = filter str_truthy (map f l).
Proof.
  induction l as [|x l IH]; simpl; [reflexivity|].
  destruct (str_truthy (f x)); simpl; now rewrite IH.
Qed.

(** Splitting at [sep] after mapping every separator to [sep] is splitting
    at the separators. *)
Lemma split_map (sep : N) (f : N -> N) (p : N -> bool) (s : str) :
  (forall c, p c = true -> f c = sep) ->
  (forall c, p c = false -> f c = c /\ c <> sep) ->
  split sep (map f s) = split_on p s.
Proof.
  intros Hsep Hkeep.
  induction s as [|c s IH]; simpl; [reflexivity|].
  rewrite IH. destruct (p c) eqn:Hp.
  - rewrite (Hsep c Hp), N.eqb_refl. reflexivity.
  - destruct (Hkeep c Hp) as [-> Hne].
    apply N.eqb_neq in Hne. rewrite Hne. reflexivity.
Qed.

Lemma replace_twice (s : str) :
  replace SPACE COMMA (replace IDEOGRAPHIC_COMMA COMMA s)
  = map (fun c => if is_separator c then COMMA else c) s.
Proof.
  unfold replace. rewrite map_map. apply map_ext. intro c.
  unfold is_separator.
  destruct (c =? IDEOGRAPHIC_COMMA) eqn:Hj.
  - rewrite orb_true_r. reflexivity.
  - destruct (c =? COMMA) eqn:Hc; simpl.
    + apply N.eqb_eq in Hc. subst c. reflexivity.
    + destruct (c =? SPACE); reflexivity.
Qed.

Lemma split_line (line : str) :
  split COMMA (replace SPACE COMMA (replace IDEOGRAPHIC_COMMA COMMA line))
  = split_on is_separator line.
Proof.
  rewrite replace_twice. apply split_map.
  - intros c Hc. now rewrite Hc.
  - intros c Hc. rewrite Hc. split; [reflexivity|].
    intros ->. discriminate Hc.
Qed.

(** C7: the words of a line are the pieces between commas, Japanese commas
    and spaces, each trimmed of whitespace, the empty ones dropped; the line
    [犬、猫 鳥] gives the three words [犬], [猫], [鳥] in this order. *)
Theorem words_split_trim_discard :
  (forall line, words line = spec_tokens line)
  /\ words (lit "犬、猫 鳥") = [lit "犬"; lit "猫"; lit "鳥"].
Proof.
  split; [|reflexivity].
  intro line. unfold words, spec_tokens.
  rewrite split_line. apply map_filter_truthy.
Qed.

(** ** The first pass counts at least the words of the second *)

Lemma lstrip_blank (s : str) : str_truthy (lstrip s) = negb (blank s).
Proof.
  induction s as [|c s IH]; simpl; [reflexivity|].
  destruct (isspace c); simpl; [exact IH | reflexivity].
Qed.

Lemma lstrip_prefix (s : str) :
  exists w, s = w ++ lstrip s /\ blank w = true.
Proof.
  induction s as [|c s (w & Hw & Hb)]; simpl.
  - exists []. split; reflexivity.
  - destruct (isspace c) eqn:Hc.
    + exists (c :: w). simpl. rewrite Hc, Hb. split; [now f_equal | reflexivity].
    + exists []. split; reflexivity.
Qed.

Lemma blank_rev (s : str) : blank (rev s) = blank s.
Proof.
  unfold blank. induction s as [|c s IH]; simpl; [reflexivity|].
  rewrite forallb_app, IH. simpl. rewrite andb_true_r. apply andb_comm.
Qed.

Lemma str_truthy_rev (s : str) : str_truthy (rev s) = str_truthy s.
Proof.
  destruct s as [|c s]; simpl; [reflexivity|].
  destruct (rev s); reflexivity.
Qed.

Lemma blank_lstrip (s : str) : blank (lstrip s) = blank s.
Proof.
  induction s as [|c s IH]; simpl; [reflexivity|].
  destruct (isspace c) eqn:Hc; simpl; [exact IH | now rewrite Hc].
Qed.

Lemma strip_blank (s : str) : str_truthy (strip s) = negb (blank s).
Proof.
  unfold strip, rstrip.
  now rewrite str_truthy_rev, lstrip_blank, blank_rev, blank_lstrip.
Qed.

Lemma rstrip_suffix (s : str) :
  exists w, s = rstrip s ++ w /\ blank w = true.
Proof.
  unfold rstrip. destruct (lstrip_prefix (rev s)) as (w & Hw & Hb).
  exists (rev w). split; [|now rewrite blank_rev].
  rewrite <- rev_app_distr, <- Hw. symmetry. apply rev_involutive.
Qed.

Section Pieces.

Variable p : N -> bool.

Lemma split_on_cons (s : str) : exists x xs, split_on p s = x :: xs.
Proof.
  destruct s as [|c s]; simpl; [now eauto|].
  destruct (p c); [now eauto|].
  destruct (split_on p s); eauto.
Qed.

Lemma solid_cons_space (c : N) (s : str) :
  isspace c = true -> solid (split_on p (c :: s)) = solid (split_on p s).
Proof.
  intro Hc. simpl. destruct (p c); [reflexivity|].
  destruct (split_on_cons s) as (x & xs & ->).
  unfold solid. simpl. rewrite Hc. simpl.
  destruct (blank x); reflexivity.
Qed.

Lemma solid_lstrip (s : str) :
  solid (split_on p (lstrip s)) = solid (split_on p s).
Proof.
  induction s as [|c s IH]; [reflexivity|].
  simpl lstrip. destruct (isspace c) eqn:Hc; [|reflexivity].
  now rewrite solid_cons_space.
Qed.

(** Appending one whitespace character changes neither whether the first
    piece is blank nor the solid pieces after it. *)
Lemma split_on_snoc_space (c : N) (s : str) :
  isspace c = true ->
  blank (hd [] (split_on p (s ++ [c]))) = blank (hd [] (split_on p s))
  /\ solid (tl (split_on p (s ++ [c]))) = solid (tl (split_on p s)).
Proof.
  intro Hc. induction s as [|a s [IHh IHt]]; simpl.
  - destruct (p c); simpl; [split; reflexivity|].
    rewrite Hc. split; reflexivity.
  - destruct (p a); simpl.
    + split; [reflexivity|].
      destruct (split_on_cons (s ++ [c])) as (x & xs & Hx).
      destruct (split_on_cons s) as (y & ys & Hy).
      rewrite Hx, Hy in *. simpl in *.
      unfold solid in *. simpl. rewrite IHh.
      destruct (negb (blank y)); simpl; now rewrite IHt.
    + destruct (split_on_cons (s ++ [c])) as (x & xs & Hx).
      destruct (split_on_cons s) as (y & ys & Hy).
      rewrite Hx, Hy in *. simpl in *.
      split; [now rewrite IHh | exact IHt].
Qed.

Lemma solid_snoc_space (c : N) (s : str) :
  isspace c = true -> solid (split_on p (s ++ [c])) = solid (split_on p s).
Proof.
  intro Hc. destruct (split_on_snoc_space c s Hc) as [Hh Ht].
  destruct (split_on_cons (s ++ [c])) as (x & xs & Hx).
  destruct (split_on_cons s) as (y & ys & Hy).
  rewrite Hx, Hy in *. simpl in *.
  unfold solid in *. simpl. rewrite Hh.
  destruct (negb (blank y)); simpl; now rewrite Ht.
Qed.

Lemma solid_app_blank (w s : str) :
  blank w = true -> solid (split_on p (s ++ w)) = solid (split_on p s).
Proof.
  revert s. induction w as [|c w IH]; intros s Hb.
  - now rewrite app_nil_r.
  - simpl in Hb. apply andb_prop in Hb as [Hc Hw].
    change (c :: w) with ([c] ++ w). rewrite app_assoc.
    rewrite IH by assumption. now apply solid_snoc_space.
Qed.

Lemma solid_strip (s : str) :
  solid (split_on p (strip s)) = solid (split_on p s).
Proof.
  unfold strip. rewrite <- (solid_lstrip s).
  destruct (rstrip_suffix (lstrip s)) as (w & Hw & Hb).
  rewrite Hw at 2. now rewrite solid_app_blank.
Qed.

End Pieces.

Lemma split_spaces (s : str) :
  split COMMA (replace SPACE COMMA s) = split_on comma_or_space s.
Proof.
  unfold replace. apply split_map; unfold comma_or_space; intros c Hc.
  - destruct (c =? SPACE); [reflexivity|].
    rewrite orb_false_r in Hc. now apply N.eqb_eq in Hc.
  - apply orb_false_elim in Hc as [Hc ->]. split; [reflexivity|].
    now apply N.eqb_neq.
Qed.

Lemma words_length (line : str) :
  length (words line)
  = solid (split_on comma_or_space (replace IDEOGRAPHIC_COMMA COMMA line)).
Proof.
  unfold words, solid. rewrite length_map, split_spaces.
  f_equal. apply filter_ext. intro x. apply strip_blank.
Qed.

(** For every line, the first pass counts at least one piece and at least as
    many pieces as the second pass finds words. *)
Lemma words_le_count_line (line : str) :
  (Z.of_nat (length (words line)) <= count_line line)%Z
  /\ (1 <= count_line line)%Z.
Proof.
  unfold count_line. rewrite split_spaces, words_length.
  rewrite <- (solid_strip comma_or_space).
  set (s := strip _). split.
  - apply inj_le. unfold solid. apply filter_length_le.
  - destruct (split_on_cons comma_or_space s) as (x & xs & ->).
    simpl length. lia.
Qed.

Lemma lines_words_le_total (lines : list str) :
  (Z.of_nat (length (flat_map words lines))
   <= fold_right Z.add 0 (map count_line lines))%Z.
Proof.
  induction lines as [|l ls IH]; simpl; [lia|].
  rewrite length_app, Nat2Z.inj_add.
  pose proof (words_le_count_line l). lia.
Qed.

Lemma file_words_le_total (content : str) :
  (Z.of_nat (length (file_words content)) <= total_words content)%Z.
Proof. apply lines_words_le_total. Qed.

(** A total of zero: the file has no line at all. *)
Lemma total_zero_no_lines (content : str) :
  total_words content = 0%Z -> file_lines content = [].
Proof.
  unfold total_words. destruct (file_lines content) as [|l ls]; simpl;
    [reflexivity|].
  pose proof (words_le_count_line l) as [_ H1].
  pose proof (lines_words_le_total ls). lia.
Qed.

(** ** Which exceptions a lookup raises *)

Lemma bind_lookup_exn {A B} (r : result A) (k : A -> result B) :
  raises_lookup_exn r -> (forall a, raises_lookup_exn (k a)) ->
  raises_lookup_exn (bind r k).
Proof.
  intros Hr Hk e. destruct r as [a|e']; simpl.
  - apply Hk.
  - intros [= ->]. now apply Hr.
Qed.

Lemma mapM_lookup_exn {A B} (f : A -> result B) (l : list A) :
  (forall a, raises_lookup_exn (f a)) -> raises_lookup_exn (mapM f l).
Proof.
  intro Hf. induction l as [|a l IH]; simpl.
  - intros e [=].
  - apply bind_lookup_exn; [apply Hf|]. intro b.
    apply bind_lookup_exn; [exact IH|]. intros bs e [=].
Qed.

Ltac lookup_exn_prim :=
  let e := fresh "e" in let H := fresh "H" in
  intros e H;
  repeat match type of H with
         | context [match ?x with _ => _ end] => destruct x
         end;
  inversion H; subst; split; discriminate.

Lemma py_getitem_lookup_exn v key : raises_lookup_exn (py_getitem v key).
Proof. unfold py_getitem. lookup_exn_prim. Qed.

Lemma py_getitem0_lookup_exn v : raises_lookup_exn (py_getitem0 v).
Proof. unfold py_getitem0. lookup_exn_prim. Qed.

Lemma py_get_lookup_exn v key d : raises_lookup_exn (py_get v key d).
Proof. unfold py_get. lookup_exn_prim. Qed.

Lemma py_slice3_lookup_exn v : raises_lookup_exn (py_slice3 v).
Proof. unfold py_slice3. lookup_exn_prim. Qed.

Lemma py_iter_lookup_exn v : raises_lookup_exn (py_iter v).
Proof. unfold py_iter. lookup_exn_prim. Qed.

Lemma or_raise_lookup_exn {A} e (o : option A) :
  lookup_exn e -> raises_lookup_exn (or_raise e o).
Proof. intros He e' H. destruct o; inversion H; now subst. Qed.

Lemma get_definitions_lookup_exn requests_get word :
  raises_lookup_exn (get_definitions requests_get word).
Proof.
  unfold get_definitions.
  apply bind_lookup_exn;
    [apply or_raise_lookup_exn; split; discriminate|]. intro resp.
  destruct (negb _); [intros e [=]|].
  apply bind_lookup_exn;
    [apply or_raise_lookup_exn; split; discriminate|]. intro data.
  apply bind_lookup_exn; [apply py_getitem_lookup_exn|]. intro results.
  destruct (negb _); [intros e [=]|].
  apply bind_lookup_exn; [apply py_getitem0_lookup_exn|]. intro entry.
  apply bind_lookup_exn; [apply py_getitem_lookup_exn|]. intro japanese.
  apply bind_lookup_exn; [apply py_getitem0_lookup_exn|]. intro form.
  apply bind_lookup_exn; [apply py_get_lookup_exn|]. intro reading.
  apply bind_lookup_exn; [apply py_get_lookup_exn|]. intro japanese_word.
  apply bind_lookup_exn; [apply py_getitem_lookup_exn|]. intro senses.
  apply bind_lookup_exn; [apply py_slice3_lookup_exn|]. intro first3.
  apply bind_lookup_exn; [apply py_iter_lookup_exn|]. intro groups.
  apply bind_lookup_exn;
    [apply mapM_lookup_exn; intro; apply py_getitem_lookup_exn|].
  intro definitions.
  apply bind_lookup_exn;
    [apply mapM_lookup_exn; intro; apply py_iter_lookup_exn|].
  intro sublists. cbv zeta.
  destruct (negb _); intros e [=].
Qed.

Lemma py_join_lookup_exn sep items : raises_lookup_exn (py_join sep items).
Proof.
  unfold py_join. apply bind_lookup_exn.
  - apply mapM_lookup_exn. intro v. lookup_exn_prim.
  - intros parts e [=].
Qed.

(** ** The loops of the second pass *)

Lemma py_truediv_unit (a b : Z) :
  (0 < a <= b)%Z ->
  exists q, py_truediv a b = Ok q /\ (0 <= q /\ q <= 1)%Q.
Proof.
  intros [Ha Hab]. unfold py_truediv.
  destruct (Z.eqb_spec b 0) as [->|Hb]; [lia|].
  eexists. split; [reflexivity|].
  assert (Hpos : (0 < inject_Z b)%Q).
  { change 0%Q with (inject_Z 0). rewrite <- Zlt_Qlt. lia. }
  split.
  - apply Qle_shift_div_l; [exact Hpos|].
    rewrite Qmult_0_l. change 0%Q with (inject_Z 0).
    rewrite <- Zle_Qle. lia.
  - apply Qle_shift_div_r; [exact Hpos|].
    rewrite Qmult_1_l. rewrite <- Zle_Qle. exact Hab.
Qed.

Section Loops.

Variable net : nat -> str -> option response.
Variable py_str : pyval -> str.
Variable py_eq : pyval -> pyval -> bool.

Local Abbreviation run_word := (process_word net py_str py_eq).
Local Abbreviation run_words := (process_words net py_str py_eq).
Local Abbreviation run_lines := (process_lines net py_str py_eq).

Lemma format_record_lookup_exn jw rd ds :
  raises_lookup_exn (format_record py_str py_eq jw rd ds).
Proof.
  unfold format_record.
  destruct (py_eq jw rd);
    (apply bind_lookup_exn; [apply py_join_lookup_exn | intros j e [=]]).
Qed.

Lemma process_words_app total (a b : list str) st :
  run_words total (a ++ b) st
  = match run_words total a st with
    | Done st' => run_words total b st'
    | Raised e st' => Raised e st'
    end.
Proof.
  revert st. induction a as [|x a IH]; intro st; simpl; [reflexivity|].
  destruct (run_word total x st); [apply IH | reflexivity].
Qed.

(** The two nested loops handle the words of the file one after the other. *)
Lemma process_lines_words total (lines : list str) st :
  run_lines total lines st = run_words total (flat_map words lines) st.
Proof.
  revert st. induction lines as [|l ls IH]; intro st; simpl; [reflexivity|].
  rewrite process_words_app.
  destruct (run_words total (words l) st); [apply IH | reflexivity].
Qed.

Lemma record_result_lookup_exn word result st :
  raises_lookup_exn (record_result py_str py_eq word result st).
Proof.
  destruct result as [[[jw rd] ds]|]; simpl; [|intros e [=]].
  apply bind_lookup_exn; [apply format_record_lookup_exn | intros l e [=]].
Qed.

(** Recording a result leaves the counter and the callbacks alone. *)
Lemma record_result_frame word result st st' :
  record_result py_str py_eq word result st = Ok st' ->
  words_checked st' = words_checked st /\ sent st' = sent st
  /\ calls st' = calls st.
Proof.
  destruct result as [[[jw rd] ds]|]; simpl.
  - destruct (format_record py_str py_eq jw rd ds); simpl; [|discriminate].
    intros [= <-]. repeat split.
  - intros [= <-]. repeat split.
Qed.

Lemma report_progress_unit total st :
  (0 <= words_checked st < total)%Z ->
  exists q, report_progress total st
            = Done (Run (outfile st) (not_found_words st)
                      (words_checked st + 1) (sent st)
                      (calls st ++ [ProgressCallback q]))
            /\ (0 <= q /\ q <= 1)%Q.
Proof.
  intro H. unfold report_progress. cbv zeta. simpl words_checked.
  destruct (py_truediv_unit (words_checked st + 1) total) as (q & -> & Hq);
    [lia|].
  exists q. split; [reflexivity | exact Hq].
Qed.

(** One word, when the counter is below the total: no division by zero, one
    label call, and on completion one progress call with a fraction in the
    unit interval. *)
Lemma process_word_progress total word st :
  (0 <= words_checked st < total)%Z ->
  match run_word total word st with
  | Done st' =>
    words_checked st' = (words_checked st + 1)%Z
    /\ exists q, calls st' = calls st ++ [UpdateCheckingLabel word;
                                          ProgressCallback q]
                 /\ (0 <= q /\ q <= 1)%Q
  | Raised e st' =>
    e <> ZeroDivisionError
    /\ calls st' = calls st ++ [UpdateCheckingLabel word]
  end.
Proof.
  intro Hwc. unfold process_word. cbv zeta.
  pose proof (get_definitions_lookup_exn
                (net (sent (call (UpdateCheckingLabel word) st))) word) as Hg.
  destruct (get_definitions _ word) as [result|e].
  2:{ split; [apply (Hg e eq_refl) | reflexivity]. }
  set (st1 := Run _ _ _ (S _) _).
  pose proof (record_result_lookup_exn word result st1) as Hr.
  pose proof (record_result_frame word result st1) as Hf.
  destruct (record_result py_str py_eq word result st1) as [st2|e].
  2:{ split; [apply (Hr e eq_refl) | reflexivity]. }
  destruct (Hf st2 eq_refl) as (Hc & _ & Hl). simpl in Hc, Hl.
  destruct (report_progress_unit total st2 ltac:(lia)) as (q & -> & Hq).
  simpl. split; [lia|]. exists q. split; [|exact Hq].
  rewrite Hl, <- app_assoc. reflexivity.
Qed.

Lemma process_words_progress total (ws : list str) st :
  (0 <= words_checked st)%Z ->
  (words_checked st + Z.of_nat (length ws) <= total)%Z ->
  error_of (run_words total ws st) <> Some ZeroDivisionError
  /\ exists new, calls (state_of (run_words total ws st))
                 = calls st ++ new
                 /\ Forall fraction_ok new.
Proof.
  revert st. induction ws as [|word ws IH]; intros st H0 Hle.
  - simpl. split; [discriminate|]. exists [].
    split; [now rewrite app_nil_r | constructor].
  - simpl length in Hle. rewrite Nat2Z.inj_succ in Hle.
    pose proof (process_word_progress total word st ltac:(lia)) as Hw.
    simpl.
    destruct (run_word total word st) as [st'|e st'].
    + destruct Hw as (Hc & q & Hl & Hq).
      destruct (IH st' ltac:(lia) ltac:(lia)) as (He & new & Hn & Hf).
      split; [exact He|].
      exists ([UpdateCheckingLabel word; ProgressCallback q] ++ new).
      split.
      * rewrite Hn, Hl, <- app_assoc. reflexivity.
      * repeat constructor; try apply Hq. exact Hf.
    + destruct Hw as [He Hl]. simpl. split; [congruence|].
      exists [UpdateCheckingLabel word]. split; [exact Hl|].
      repeat constructor.
Qed.

End Loops.

(** ** The trailing section *)

Lemma write_each_line (l : list str) (st : run) :
  fold_left (fun st word => write (word ++ [LF]) st) l st
  = Run (outfile st ++ concat (map (fun word => word ++ [LF]) l))
        (not_found_words st) (words_checked st) (sent st) (calls st).
Proof.
  revert st. induction l as [|x l IH]; intro st; simpl.
  - rewrite app_nil_r. now destruct st.
  - rewrite IH. simpl. now rewrite <- app_assoc.
Qed.

Lemma write_not_found_eq (st : run) :
  write_not_found st
  = Run (outfile st ++ not_found_section (not_found_words st))
        (not_found_words st) (words_checked st) (sent st) (calls st).
Proof.
  unfold write_not_found, not_found_section.
  destruct (not_found_words st) as [|x l] eqn:Hnf.
  - rewrite app_nil_r. destruct st; simpl in *. now subst.
  - rewrite write_each_line. simpl. rewrite Hnf.
    rewrite <- !app_assoc. reflexivity.
Qed.

(** ** Progress fractions *)

Lemma write_file_same fs path content :
  write_file fs path content path = Some content.
Proof.
  unfold write_file, str_eqb.
  destruct (list_eq_dec N.eq_dec path path); [reflexivity | contradiction].
Qed.

Lemma write_file_other fs path content p :
  p <> path -> write_file fs path content p = fs p.
Proof.
  intro H. unfold write_file, str_eqb.
  destruct (list_eq_dec N.eq_dec p path); [contradiction | reflexivity].
Qed.

(** The lines of the second pass: those of the input file, or none when the
    output path is the input path. *)
Lemma second_pass_lines fs input output content :
  fs input = Some content ->
  match write_file fs output [] input with
  | Some content' => file_lines content'
  | None => []
  end
  = if str_eqb input output then [] else file_lines content.
Proof.
  intro H. unfold write_file. destruct (str_eqb input output).
  - reflexivity.
  - now rewrite H.
Qed.

(** C9: the first pass never counts fewer words than the second pass
    handles; [process_file] never divides by zero; every fraction it passes
    to the progress callback lies between 0 and 1; and on a file for which
    the first pass counts zero the progress callback is not called. *)
Theorem progress_fraction_in_unit_interval
    (net : nat -> str -> option response) (py_str : pyval -> str)
    (py_eq : pyval -> pyval -> bool) (input output : str) (w : world) :
  (forall content,
      (Z.of_nat (length (file_words content)) <= total_words content)%Z)
  /\ fst (process_file net py_str py_eq input output w)
     <> Raise ZeroDivisionError
  /\ (exists new,
        ui_calls (snd (process_file net py_str py_eq input output w))
        = ui_calls w ++ new
        /\ Forall fraction_ok new)
  /\ (forall content,
        files w input = Some content ->
        total_words content = 0%Z ->
        process_file net py_str py_eq input output w
        = (Ok tt,
           World (write_file (files w) output []) (requests_sent w)
                 (ui_calls w ++ [ClearCheckingLabel]))).
Proof.
  split; [exact file_words_le_total|].
  assert (Hzero : forall content,
             files w input = Some content ->
             total_words content = 0%Z ->
             process_file net py_str py_eq input output w
             = (Ok tt,
                World (write_file (files w) output []) (requests_sent w)
                      (ui_calls w ++ [ClearCheckingLabel]))).
  { intros content Hin Hz. unfold process_file. rewrite Hin. cbv zeta.
    rewrite (second_pass_lines _ _ _ _ Hin).
    rewrite (total_zero_no_lines content Hz).
    destruct (str_eqb input output); reflexivity. }
  rewrite <- and_assoc. split; [|exact Hzero]. clear Hzero.
  unfold process_file.
  destruct (files w input) as [content|] eqn:Hin.
  2:{ simpl. split; [discriminate|]. exists [].
      split; [now rewrite app_nil_r | constructor]. }
  cbv zeta. rewrite (second_pass_lines _ _ _ _ Hin).
  rewrite process_lines_words.
  set (ws := flat_map words _).
  assert (Hws : (Z.of_nat (length ws) <= total_words content)%Z).
  { subst ws. destruct (str_eqb input output).
    - pose proof (file_words_le_total content). simpl. lia.
    - apply file_words_le_total. }
  destruct (process_words_progress net py_str py_eq (total_words content) ws
              (Run [] [] 0 (requests_sent w) (ui_calls w)))
    as (He & new & Hn & Hf); simpl; [lia | lia |].
  destruct (process_words net py_str py_eq (total_words content) ws _)
    as [st|e st]; simpl in *.
  - rewrite write_not_found_eq. simpl. split; [discriminate|].
    exists (new ++ [ClearCheckingLabel]). split.
    + now rewrite Hn, app_assoc.
    + apply Forall_app. split; [exact Hf | repeat constructor].
  - split; [congruence|]. exists new. split; assumption.
Qed.

(** ** Failure to open the input *)

(** C8: when the input file cannot be opened, [process_file] raises and
    leaves the world as it found it: the output file is neither created nor
    changed, no request is sent and no callback is called. *)
Theorem unreadable_input_leaves_no_output
    (net : nat -> str -> option response) (py_str : pyval -> str)
    (py_eq : pyval -> pyval -> bool) (input output : str) (w : world) :
  files w input = None ->
  process_file net py_str py_eq input output w = (Raise OSError, w).
Proof. intro H. unfold process_file. now rewrite H. Qed.

(** ** What the output file holds *)

Section Output.

Variable net : nat -> str -> option response.
Variable py_str : pyval -> str.
Variable py_eq : pyval -> pyval -> bool.

Local Abbreviation run_word := (process_word net py_str py_eq).
Local Abbreviation run_words := (process_words net py_str py_eq).

Lemma report_progress_done total st st' :
  report_progress total st = Done st' ->
  outfile st' = outfile st /\ not_found_words st' = not_found_words st
  /\ sent st' = sent st.
Proof.
  unfold report_progress. cbv zeta.
  destruct (py_truediv _ total); [|discriminate].
  intros [= <-]. repeat split.
Qed.

(** A completed step sent one request, and either appended the record of
    the answer or put the word on the not-found list. *)
Lemma process_word_done total word st st' :
  run_word total word st = Done st' ->
  sent st' = S (sent st)
  /\ exists found,
      get_definitions (net (sent st)) word = Ok found
      /\ match found with
         | Some (jw, rd, ds) =>
           exists line, format_record py_str py_eq jw rd ds = Ok line
                        /\ outfile st' = outfile st ++ line
                        /\ not_found_words st' = not_found_words st
         | None =>
           outfile st' = outfile st
           /\ not_found_words st' = not_found_words st ++ [word]
         end.
Proof.
  unfold process_word. cbv zeta. simpl sent.
  destruct (get_definitions (net (sent st)) word) as [found|e];
    [|discriminate].
  set (st1 := Run _ _ _ (S _) _).
  destruct (record_result py_str py_eq word found st1) as [st2|e] eqn:Hr;
    [|discriminate].
  intro Hp. apply report_progress_done in Hp as (Ho & Hn & Hs).
  rewrite Ho, Hn, Hs. clear Ho Hn Hs st'.
  destruct found as [[[jw rd] ds]|]; simpl in Hr.
  - destruct (format_record py_str py_eq jw rd ds) as [line|e] eqn:Hf;
      [|discriminate].
    injection Hr as <-. split; [reflexivity|].
    eexists. split; [reflexivity|]. exists line. now repeat split.
  - injection Hr as <-. split; [reflexivity|].
    eexists. split; [reflexivity|]. now split.
Qed.

Lemma process_words_done total (ws : list str) st st' :
  run_words total ws st = Done st' ->
  outfile st' = outfile st ++ records py_str py_eq (lookups net (sent st) ws)
  /\ not_found_words st'
     = not_found_words st ++ missing (lookups net (sent st) ws).
Proof.
  revert st. induction ws as [|word ws IH]; intros st; simpl.
  - intros [= <-]. now rewrite !app_nil_r.
  - destruct (run_word total word st) as [st1|e st1] eqn:Hw; [|discriminate].
    intro Hws. apply process_word_done in Hw as (Hs & found & Hg & Hfound).
    apply IH in Hws as [Ho Hn]. rewrite Hs in Ho, Hn.
    rewrite Ho, Hn, Hg. unfold records, missing. simpl.
    destruct found as [[[jw rd] ds]|].
    + destruct Hfound as (line & -> & -> & ->).
      now rewrite app_nil_l, <- app_assoc.
    + destruct Hfound as [-> ->]. now rewrite app_nil_l, <- app_assoc.
Qed.

End Output.

(** C5: when [process_file] completes, the output file holds the records
    of the found words followed by the not-found section: a word whose
    lookup returned no result has no record, and has one line in the
    section, in the order of the lookups; the section is the empty text
    when no lookup failed, else a blank line, the line
    [Definition Not Found:] and the lines of the words. *)
Theorem not_found_words_in_trailing_section
    (net : nat -> str -> option response) (py_str : pyval -> str)
    (py_eq : pyval -> pyval -> bool) (input output content : str)
    (w w' : world) :
  files w input = Some content ->
  input <> output ->
  process_file net py_str py_eq input output w = (Ok tt, w') ->
  let answers := lookups net (requests_sent w) (file_words content) in
  files w' output
  = Some (records py_str py_eq answers
            ++ match missing answers with
               | [] => []
               | _ :: _ =>
                 [LF] ++ lit "Definition Not Found:" ++ [LF]
                   ++ concat (map (fun word => word ++ [LF]) (missing answers))
               end).
Proof.
  intros Hin Hne. unfold process_file. rewrite Hin. cbv zeta.
  rewrite write_file_other, Hin by exact Hne.
  rewrite process_lines_words. fold (file_words content).
  destruct (process_words net py_str py_eq _ (file_words content) _)
    as [st|e st] eqn:Hrun; [|discriminate].
  intros [= <-]. simpl files.
  apply process_words_done in Hrun as [Ho Hn]. simpl in Ho, Hn.
  rewrite write_file_same, write_not_found_eq. simpl outfile.
  rewrite Ho, Hn. reflexivity.
Qed.

(** ** Records of found words *)

Lemma mapM_strings (l : list str) :
  mapM (fun v => match v with
                 | PStr s => Ok s
                 | _ => Raise TypeError
                 end) (map PStr l) = Ok l.
Proof. induction l as [|x l IH]; simpl; [|rewrite IH]; reflexivity. Qed.

Lemma py_join_strings (sep : str) (l : list str) :
  py_join sep (map PStr l) = Ok (join sep l).
Proof. unfold py_join. now rewrite mapM_strings. Qed.

Lemma str_eqb_eq (a b : str) : str_eqb a b = true <-> a = b.
Proof.
  unfold str_eqb. destruct (list_eq_dec N.eq_dec a b); split;
    congruence.
Qed.

(** C4: for a found word whose surface form, reading and definitions are
    strings, the step of [process_file] appends one line to the output
    file and leaves the not-found list alone: [reading;def1, def2, def3;]
    when the surface form is the reading, [surface[reading];def1, def2,
    def3;] otherwise; for (犬, いぬ, [dog]) the line is [犬[いぬ];dog;]. *)
Theorem found_word_record
    (net : nat -> str -> option response) (py_str : pyval -> str)
    (py_eq : pyval -> pyval -> bool) :
  (forall s, py_str (PStr s) = s) ->
  (forall a b, py_eq (PStr a) (PStr b) = str_eqb a b) ->
  (forall total word st surface reading defs,
      get_definitions (net (sent st)) word
      = Ok (Some (PStr surface, PStr reading, map PStr defs)) ->
      let st' := state_of (process_word net py_str py_eq total word st) in
      not_found_words st' = not_found_words st
      /\ (surface = reading ->
          outfile st'
          = outfile st ++ reading ++ lit ";" ++ join (lit ", ") defs
              ++ lit ";" ++ [LF])
      /\ (surface <> reading ->
          outfile st'
          = outfile st ++ surface ++ lit "[" ++ reading ++ lit "];"
              ++ join (lit ", ") defs ++ lit ";" ++ [LF]))
  /\ (forall total word st,
      get_definitions (net (sent st)) word
      = Ok (Some (PStr (lit "犬"), PStr (lit "いぬ"), [PStr (lit "dog")])) ->
      outfile (state_of (process_word net py_str py_eq total word st))
      = outfile st ++ lit "犬[いぬ];dog;" ++ [LF]).
Proof.
  intros Hstr Heq.
  assert (Hstep : forall total word st surface reading defs,
             get_definitions (net (sent st)) word
             = Ok (Some (PStr surface, PStr reading, map PStr defs)) ->
             let st' := state_of (process_word net py_str py_eq total word st)
             in
             not_found_words st' = not_found_words st
             /\ outfile st'
                = outfile st
                    ++ (if str_eqb surface reading
                        then reading ++ lit ";" ++ join (lit ", ") defs
                               ++ lit ";" ++ [LF]
                        else surface ++ lit "[" ++ reading ++ lit "];"
                               ++ join (lit ", ") defs ++ lit ";" ++ [LF])).
  { intros total word st surface reading defs Hg.
    unfold process_word. cbv zeta. simpl sent. rewrite Hg.
    unfold record_result, format_record.
    rewrite Heq, !Hstr, py_join_strings.
    destruct (str_eqb surface reading); simpl;
      unfold report_progress; cbv zeta;
      destruct (py_truediv _ total); simpl; split; reflexivity. }
  split.
  - intros total word st surface reading defs Hg.
    destruct (Hstep total word st surface reading defs Hg) as [Hn Ho].
    split; [exact Hn|]. split; intro H.
    + apply str_eqb_eq in H. cbv zeta in Ho. now rewrite H in Ho.
    + destruct (str_eqb surface reading) eqn:E.
      * apply str_eqb_eq in E. contradiction.
      * exact Ho.
  - intros total word st Hg.
    destruct (Hstep total word st (lit "犬") (lit "いぬ") [lit "dog"] Hg)
      as [_ Ho].
    exact Ho.
Qed.

(** ** Lookups that fail *)

Lemma get_definitions_unsuccessful requests_get word resp :
  requests_get (SEARCH_URL ++ word) = Some resp ->
  status_code resp <> 200%Z ->
  get_definitions requests_get word = Ok None.
Proof.
  intros Hr Hs. unfold get_definitions. cbv zeta. rewrite Hr. simpl.
  apply Z.eqb_neq in Hs. now rewrite Hs.
Qed.

Lemma process_word_unsuccessful
    (net : nat -> str -> option response) (py_str : pyval -> str)
    (py_eq : pyval -> pyval -> bool)
    (total : Z) (word : str) (st : run) (resp : response) :
  net (sent st) (SEARCH_URL ++ word) = Some resp ->
  status_code resp <> 200%Z ->
  total <> 0%Z ->
  process_word net py_str py_eq total word st
  = Done (Run (outfile st) (not_found_words st ++ [word])
            (words_checked st + 1) (S (sent st))
            (calls st ++ [UpdateCheckingLabel word;
                          ProgressCallback
                            (inject_Z (words_checked st + 1)
                             / inject_Z total)])).
Proof.
  intros Hr Hs Ht. unfold process_word. cbv zeta. simpl sent.
  rewrite (get_definitions_unsuccessful _ _ _ Hr Hs). simpl.
  unfold report_progress, py_truediv. cbv zeta. simpl words_checked.
  apply Z.eqb_neq in Ht. rewrite Ht. unfold call. simpl.
  now rewrite <- app_assoc.
Qed.

(** When every request is answered with an unsuccessful status, the loop
    runs to its end, writes nothing and lists every word. *)
Lemma process_words_all_unsuccessful
    (net : nat -> str -> option response) (py_str : pyval -> str)
    (py_eq : pyval -> pyval -> bool) (total : Z) (ws : list str) (st : run) :
  (forall n url, exists resp,
        net n url = Some resp /\ status_code resp <> 200%Z) ->
  (0 <= words_checked st)%Z ->
  (words_checked st + Z.of_nat (length ws) <= total)%Z ->
  exists st',
    process_words net py_str py_eq total ws st = Done st'
    /\ outfile st' = outfile st
    /\ not_found_words st' = not_found_words st ++ ws.
Proof.
  intro Hnet. revert st. induction ws as [|word ws IH]; intros st H0 Hle.
  - exists st. simpl. now rewrite app_nil_r.
  - simpl length in Hle. rewrite Nat2Z.inj_succ in Hle.
    destruct (Hnet (sent st) (SEARCH_URL ++ word)) as (resp & Hr & Hs).
    simpl.
    rewrite (process_word_unsuccessful net py_str py_eq total word st resp
               Hr Hs) by lia.
    destruct (IH (Run (outfile st) (not_found_words st ++ [word])
                    (words_checked st + 1) (S (sent st))
                    (calls st ++ [UpdateCheckingLabel word;
                                  ProgressCallback
                                    (inject_Z (words_checked st + 1)
                                     / inject_Z total)])))
      as (st' & Hrun & Ho & Hn); simpl; [lia | lia |].
    exists st'. split; [exact Hrun|]. split; [exact Ho|].
    rewrite Hn. simpl. now rewrite <- app_assoc.
Qed.

(** C2, as the code has it: a lookup answered with an unsuccessful status is
    not fatal.  The word goes on the not-found list, nothing is written for
    it, the progress is reported and the loop goes on with the remaining
    words; and a run in which every lookup is answered so completes, its
    output file listing every word of the input in the not-found section. *)
Theorem unsuccessful_status_is_not_fatal
    (net : nat -> str -> option response) (py_str : pyval -> str)
    (py_eq : pyval -> pyval -> bool) :
  (forall total word rest st resp,
      net (sent st) (SEARCH_URL ++ word) = Some resp ->
      status_code resp <> 200%Z ->
      total <> 0%Z ->
      process_words net py_str py_eq total (word :: rest) st
      = process_words net py_str py_eq total rest
          (Run (outfile st) (not_found_words st ++ [word])
             (words_checked st + 1) (S (sent st))
             (calls st ++ [UpdateCheckingLabel word;
                           ProgressCallback
                             (inject_Z (words_checked st + 1)
                              / inject_Z total)])))
  /\ (forall input output content w,
      files w input = Some content ->
      input <> output ->
      (forall n url, exists resp,
            net n url = Some resp /\ status_code resp <> 200%Z) ->
      exists w',
        process_file net py_str py_eq input output w = (Ok tt, w')
        /\ files w' output
           = Some (not_found_section (file_words content))).
Proof.
  split.
  - intros total word rest st resp Hr Hs Ht. simpl.
    now rewrite (process_word_unsuccessful net py_str py_eq total word st
                   resp Hr Hs Ht).
  - intros input output content w Hin Hne Hnet.
    unfold process_file. rewrite Hin. cbv zeta.
    rewrite write_file_other, Hin by exact Hne.
    rewrite process_lines_words. fold (file_words content).
    destruct (process_words_all_unsuccessful net py_str py_eq
                (total_words content) (file_words content)
                (Run [] [] 0 (requests_sent w) (ui_calls w)) Hnet)
      as (st' & -> & Ho & Hn); simpl.
    + lia.
    + apply file_words_le_total.
    + eexists. split; [reflexivity|]. simpl files.
      rewrite write_file_same, write_not_found_eq. simpl outfile.
      simpl in Ho, Hn. now rewrite Ho, Hn.
Qed.

(** ** The shape of an answer *)

Lemma mapM_Forall2 {A B C} (f : A -> result B) (g : C -> B)
    (l : list A) (l' : list C) :
  Forall2 (fun a c => f a = Ok (g c)) l l' -> mapM f l = Ok (map g l').
Proof.
  induction 1 as [|a c l l' Hac _ IH]; simpl; [reflexivity|].
  now rewrite Hac, IH.
Qed.

Lemma Forall2_firstn {A B} (R : A -> B -> Prop) (n : nat) l l' :
  Forall2 R l l' -> Forall2 R (firstn n l) (firstn n l').
Proof.
  intro H. revert n. induction H; intros [|n]; simpl; constructor; auto.
Qed.

Lemma mapM_py_iter_lists (ls : list (list str)) :
  mapM py_iter (map (fun l => PList (map PStr l)) ls)
  = Ok (map (map PStr) ls).
Proof. induction ls as [|l ls IH]; simpl; [|rewrite IH]; reflexivity. Qed.

Lemma concat_map_map {A B} (f : A -> B) (ls : list (list A)) :
  concat (map (map f) ls) = map f (concat ls).
Proof. now rewrite concat_map. Qed.

Local Arguments firstn : simpl never.

(** On a body of the documented shape [get_definitions] is [spec_lookup]. *)
Lemma get_definitions_shaped requests_get word resp body data :
  requests_get (SEARCH_URL ++ word) = Some resp ->
  status_code resp = 200%Z ->
  json resp = Some body ->
  is_body body data ->
  get_definitions requests_get word = spec_lookup data.
Proof.
  intros Hr Hs Hj (items & results & -> & Hdata & Hentries).
  unfold get_definitions. cbv zeta. rewrite Hr. simpl.
  rewrite Hs, Hj. simpl. rewrite Hdata. simpl.
  destruct Hentries as [|v e results data He Hrest]; [reflexivity|].
  simpl.
  destruct He as (eitems & forms & groups & -> & Hjap & Hforms & Hsen & Hgroups).
  simpl. rewrite Hjap. simpl.
  destruct Hforms as [|vf f forms fs Hf _]; [reflexivity|].
  simpl. destruct Hf as (fitems & -> & Hw & Hrd). simpl.
  rewrite Hrd, Hw, Hsen. simpl.
  rewrite (mapM_Forall2 _ (fun s => PList (map PStr (english_definitions s)))
             _ (firstn 3 (senses e))).
  2:{ apply Forall2_firstn.
      eapply Forall2_impl; [|exact Hgroups].
      intros a c (sitems & -> & Hd). simpl. now rewrite Hd. }
  simpl. rewrite <- (map_map english_definitions (fun l => PList (map PStr l))).
  rewrite mapM_py_iter_lists.
  assert (Hdefs : firstn 3 (concat (map (map PStr)
                     (map english_definitions (firstn 3 (senses e)))))
                  = map PStr (definitions_of e)).
  { unfold definitions_of. now rewrite concat_map_map, firstn_map. }
  assert (Hent : match eitems with [] => false | _ :: _ => true end = true).
  { destruct eitems; [discriminate Hjap | reflexivity]. }
  unfold surface_of.
  destruct (form_reading f) as [[|rc r]|]; destruct (form_word f) as [[|wc w]|];
    cbn [option_map bind]; rewrite Hdefs, Hent;
    destruct (definitions_of e); reflexivity.
Qed.

(** ** What a lookup that returns went through *)

Lemma bind_ok {A B} (r : result A) (k : A -> result B) (b : B) :
  bind r k = Ok b -> exists a, r = Ok a /\ k a = Ok b.
Proof. destruct r as [a|e]; simpl; [eauto | discriminate]. Qed.

Lemma or_raise_ok {A} e (o : option A) (a : A) :
  or_raise e o = Ok a -> o = Some a.
Proof. destruct o; simpl; congruence. Qed.

(** The steps of a lookup that returns on a successful status, in the order
    of the source. *)
Lemma get_definitions_steps requests_get word resp found :
  requests_get (SEARCH_URL ++ word) = Some resp ->
  status_code resp = 200%Z ->
  get_definitions requests_get word = Ok found ->
  exists body results,
    json resp = Some body
    /\ py_getitem body (lit "data") = Ok results
    /\ (py_truthy results = false -> found = None)
    /\ (py_truthy results = true ->
        exists entry japanese form reading japanese_word senses first3
               groups definitions sublists,
          py_getitem0 results = Ok entry
          /\ py_getitem entry (lit "japanese") = Ok japanese
          /\ py_getitem0 japanese = Ok form
          /\ py_get form (lit "reading") PNone = Ok reading
          /\ py_get form (lit "word") reading = Ok japanese_word
          /\ py_getitem entry (lit "senses") = Ok senses
          /\ py_slice3 senses = Ok first3
          /\ py_iter first3 = Ok groups
          /\ mapM (fun sense =>
                     py_getitem sense (lit "english_definitions")) groups
             = Ok definitions
          /\ mapM py_iter definitions = Ok sublists
          /\ found
             = if py_truthy entry && py_truthy reading
                  && py_truthy japanese_word
                  && match firstn 3 (concat sublists) with
                     | [] => false
                     | _ :: _ => true
                     end
               then Some (japanese_word, reading, firstn 3 (concat sublists))
               else None).
Proof.
  intros Hr Hs. unfold get_definitions. cbv zeta.
  rewrite Hr. simpl. rewrite Hs. simpl. intro H.
  apply bind_ok in H as (body & Hj & H). apply or_raise_ok in Hj.
  apply bind_ok in H as (results & Hdata & H).
  exists body, results. split; [exact Hj|]. split; [exact Hdata|].
  destruct (py_truthy results); simpl in H.
  - split; [discriminate|]. intros _.
    apply bind_ok in H as (entry & H1 & H).
    apply bind_ok in H as (jp & H2 & H).
    apply bind_ok in H as (form & H3 & H).
    apply bind_ok in H as (reading & H4 & H).
    apply bind_ok in H as (jw & H5 & H).
    apply bind_ok in H as (sn & H6 & H).
    apply bind_ok in H as (first3 & H7 & H).
    apply bind_ok in H as (groups & H8 & H).
    apply bind_ok in H as (definitions & H9 & H).
    apply bind_ok in H as (sublists & H10 & H).
    exists entry, jp, form, reading, jw, sn, first3, groups, definitions,
      sublists.
    repeat (split; [assumption|]).
    destruct (_ && _); simpl in H; congruence.
  - split; [congruence | discriminate].
Qed.

Lemma py_getitem_ok v key x :
  py_getitem v key = Ok x ->
  exists items, v = PDict items /\ dict_get items key = Some x.
Proof.
  destruct v; simpl; try discriminate.
  destruct (dict_get items key) eqn:E; [|discriminate].
  intros [= <-]. eauto.
Qed.

Lemma py_get_ok v key d x :
  py_get v key d = Ok x -> exists items, v = PDict items.
Proof. destruct v; simpl; try discriminate. eauto. Qed.

Lemma py_getitem0_ok v x :
  py_getitem0 v = Ok x ->
  (exists rest, v = PList (x :: rest))
  \/ (exists c rest, v = PStr (c :: rest) /\ x = PStr [c]).
Proof.
  destruct v as [| | | |s|l|]; simpl; try discriminate.
  - destruct s as [|c s]; [discriminate|]. intros [= <-]. right. eauto.
  - destruct l as [|y l]; [discriminate|]. intros [= <-]. left. eauto.
Qed.

(** A slice that was iterated: the first three items of the sequence. *)
Lemma py_slice3_iter v first3 groups :
  py_slice3 v = Ok first3 -> py_iter first3 = Ok groups ->
  exists items, py_iter v = Ok items /\ groups = firstn 3 items.
Proof.
  destruct v; simpl; try discriminate; intros [= <-]; simpl; intros [= <-].
  - eexists. split; [reflexivity|]. symmetry. apply firstn_map.
  - eexists. split; reflexivity.
Qed.

Lemma mapM_ok_Forall {A B} (f : A -> result B) (l : list A) (bs : list B) :
  mapM f l = Ok bs -> Forall (fun a => exists b, f a = Ok b) l.
Proof.
  revert bs. induction l as [|a l IH]; intros bs; simpl; [constructor|].
  intro H. apply bind_ok in H as (b & Hb & H).
  apply bind_ok in H as (bs' & Hbs & _).
  constructor; [eauto | eapply IH; eauto].
Qed.

(** Whatever the body, a returned triple has a true surface form, a true
    reading and at least one definition. *)
Lemma get_definitions_truthy requests_get word surface reading defs :
  get_definitions requests_get word = Ok (Some (surface, reading, defs)) ->
  py_truthy surface = true /\ py_truthy reading = true /\ defs <> [].
Proof.
  intro H.
  destruct (requests_get (SEARCH_URL ++ word)) as [resp|] eqn:Hr.
  2:{ unfold get_definitions in H. cbv zeta in H. rewrite Hr in H.
      discriminate. }
  destruct (Z.eq_dec (status_code resp) 200) as [Hs|Hs].
  2:{ rewrite (get_definitions_unsuccessful _ _ _ Hr Hs) in H.
      discriminate. }
  destruct (get_definitions_steps _ _ _ _ Hr Hs H)
    as (body & results & _ & _ & Hfalse & Htrue).
  destruct (py_truthy results).
  2:{ specialize (Hfalse eq_refl). discriminate. }
  destruct (Htrue eq_refl)
    as (entry & jp & form & rd & jw & sn & f3 & gs & ds & subs & Hsteps).
  decompose [and] Hsteps. clear Hsteps.
  match goal with Hf : Some _ = _ |- _ => rename Hf into Hfound end.
  destruct (py_truthy entry); [|discriminate].
  destruct (py_truthy rd) eqn:Hrd; [|discriminate].
  destruct (py_truthy jw) eqn:Hjw; [|discriminate].
  destruct (firstn 3 (concat subs)) eqn:Hd; [discriminate|].
  simpl in Hfound. injection Hfound as -> -> ->.
  repeat split; try assumption. discriminate.
Qed.

(** ** Results and no results *)

Lemma spec_lookup_none (data : list entry) :
  spec_lookup data = Ok None <->
  data = []
  \/ exists e rest f forms,
      data = e :: rest /\ japanese e = f :: forms
      /\ (absent_or_empty (form_reading f) \/ absent_or_empty (surface_of f)
          \/ definitions_of e = []).
Proof.
  unfold spec_lookup, absent_or_empty. split.
  - destruct data as [|e rest]; [now left|]. intro H. right.
    destruct (japanese e) as [|f forms] eqn:Hf; [discriminate|].
    exists e, rest, f, forms.
    split; [reflexivity|]. split; [exact Hf|].
    destruct (form_reading f) as [[|rc r]|]; [now auto | | now auto].
    destruct (surface_of f) as [[|sc s0]|]; [now auto | | now auto].
    destruct (definitions_of e); [now auto | discriminate].
  - intros [->|(e & rest & f & forms & -> & Hf & H)]; [reflexivity|].
    rewrite Hf.
    destruct (form_reading f) as [[|rc r]|]; try reflexivity.
    destruct (surface_of f) as [[|sc s0]|]; try reflexivity.
    destruct (definitions_of e); [reflexivity|].
    destruct H as [[H|H]|[[H|H]|H]]; discriminate.
Qed.

Lemma spec_lookup_some (data : list entry) surface reading defs :
  spec_lookup data = Ok (Some (surface, reading, defs)) <->
  exists e rest f forms r s,
    data = e :: rest /\ japanese e = f :: forms
    /\ form_reading f = Some r /\ surface_of f = Some s
    /\ r <> [] /\ s <> [] /\ definitions_of e <> []
    /\ surface = PStr s /\ reading = PStr r
    /\ defs = map PStr (definitions_of e).
Proof.
  unfold spec_lookup. split.
  - destruct data as [|e rest]; [discriminate|].
    destruct (japanese e) as [|f forms] eqn:Hf; [discriminate|].
    destruct (form_reading f) as [[|rc r]|] eqn:Hr; try discriminate.
    destruct (surface_of f) as [[|sc s0]|] eqn:Hs; try discriminate.
    destruct (definitions_of e) as [|d ds] eqn:Hd; [discriminate|].
    intros [= <- <- <-].
    exists e, rest, f, forms, (rc :: r), (sc :: s0).
    rewrite Hd. repeat split; try assumption; discriminate.
  - intros (e & rest & f & forms & r & s0 & -> & Hf & Hrd & Hsf & Hr & Hs & Hd
            & -> & -> & ->).
    rewrite Hf, Hrd, Hsf.
    destruct r; [contradiction|]. destruct s0; [contradiction|].
    destruct (definitions_of e); [contradiction|]. reflexivity.
Qed.

(** C3: on an answer of the documented shape, [get_definitions] returns no
    result exactly when the status is not 200, or the result list is empty,
    or the reading, the surface form or the definitions of the first entry
    are missing or empty; and a triple it returns has a surface form, a
    reading and a definition list that are not empty. *)
Theorem no_result_exactly_when
    (requests_get : str -> option response) (word : str) (resp : response)
    (data : list entry) :
  requests_get (SEARCH_URL ++ word) = Some resp ->
  (status_code resp = 200%Z ->
   exists body, json resp = Some body /\ is_body body data) ->
  (get_definitions requests_get word = Ok None <->
   status_code resp <> 200%Z
   \/ data = []
   \/ exists e rest f forms,
       data = e :: rest /\ japanese e = f :: forms
       /\ (absent_or_empty (form_reading f) \/ absent_or_empty (surface_of f)
           \/ definitions_of e = []))
  /\ (forall surface reading defs,
       get_definitions requests_get word = Ok (Some (surface, reading, defs)) ->
       exists s r ds,
         surface = PStr s /\ reading = PStr r /\ defs = map PStr ds
         /\ s <> [] /\ r <> [] /\ ds <> []).
Proof.
  intros Hr Hbody.
  destruct (Z.eq_dec (status_code resp) 200) as [Hs|Hs].
  - destruct (Hbody Hs) as (body & Hj & Hshape).
    rewrite (get_definitions_shaped _ _ _ _ _ Hr Hs Hj Hshape).
    rewrite spec_lookup_none. split.
    + split; [now auto|]. intros [H|H]; [contradiction | exact H].
    + intros surface reading defs H. apply spec_lookup_some in H.
      destruct H as (e & rest & f & forms & r & s0 & _ & _ & _ & _ & Hr0 & Hs0
                     & Hd & -> & -> & ->).
      exists s0, r, (definitions_of e). now repeat split.
  - rewrite (get_definitions_unsuccessful _ _ _ Hr Hs). split.
    + split; [now auto | reflexivity].
    + discriminate.
Qed.

(** C6: on a successful status and a body of the documented shape,
    [get_definitions] returns a triple exactly when the first entry of the
    result list has a first form with a reading, and then the triple is:
    the word of that form, or its reading when it has no word; that
    reading; and the English definitions of the first three senses of the
    entry, concatenated and cut to three.  (None of the three is empty.) *)
Theorem lookup_reads_first_entry
    (requests_get : str -> option response) (word : str) (resp : response)
    (body : pyval) (data : list entry) (surface reading : pyval)
    (defs : list pyval) :
  requests_get (SEARCH_URL ++ word) = Some resp ->
  status_code resp = 200%Z ->
  json resp = Some body ->
  is_body body data ->
  (get_definitions requests_get word = Ok (Some (surface, reading, defs)) <->
   exists e rest f forms r,
     data = e :: rest /\ japanese e = f :: forms
     /\ form_reading f = Some r
     /\ reading = PStr r
     /\ surface = PStr match form_word f with
                       | Some w => w
                       | None => r
                       end
     /\ defs = map PStr
                 (firstn 3
                    (concat (map english_definitions (firstn 3 (senses e)))))
     /\ py_truthy reading = true /\ py_truthy surface = true /\ defs <> []).
Proof.
  intros Hr Hs Hj Hshape.
  rewrite (get_definitions_shaped _ _ _ _ _ Hr Hs Hj Hshape).
  rewrite spec_lookup_some. fold definitions_of. unfold surface_of. split.
  - intros (e & rest & f & forms & r & s0 & -> & Hf & Hrd & Hsf & Hr0 & Hs0
            & Hd & -> & -> & ->).
    exists e, rest, f, forms, r. rewrite Hrd in *.
    assert (Hw : match form_word f with Some w => w | None => r end = s0)
      by (destruct (form_word f); congruence).
    rewrite Hw. repeat split; try assumption.
    + now destruct r.
    + now destruct s0.
    + destruct (definitions_of e); [contradiction | discriminate].
  - intros (e & rest & f & forms & r & -> & Hf & Hrd & -> & -> & -> & Htr
            & Hts & Hd).
    exists e, rest, f, forms, r,
      match form_word f with Some w => w | None => r end.
    rewrite Hrd. repeat split; try assumption.
    + now destruct (form_word f).
    + intros ->. discriminate.
    + intro E. rewrite E in Hts. discriminate.
    + intro E. apply Hd. unfold definitions_of in E. now rewrite E.
Qed.

(** ** Bodies on which a lookup raises *)

(** C10, as the code has it: on a successful status [get_definitions]
    returns only for a body with a [data] key whose value, when true, is a
    list whose first entry has a non-empty [japanese] list and whose first
    three [senses] have an [english_definitions] key; on every other body,
    and on a body that is not JSON, it raises. *)
Theorem lookup_returns_only_on_shaped_body
    (requests_get : str -> option response) (word : str) (resp : response) :
  requests_get (SEARCH_URL ++ word) = Some resp ->
  status_code resp = 200%Z ->
  (forall found,
      get_definitions requests_get word = Ok found ->
      exists body, json resp = Some body /\ shaped (firstn 3) body)
  /\ ((forall body, json resp = Some body -> ~ shaped (firstn 3) body) ->
      exists e, get_definitions requests_get word = Raise e).
Proof.
  intros Hr Hs.
  assert (Hret : forall found,
             get_definitions requests_get word = Ok found ->
             exists body, json resp = Some body /\ shaped (firstn 3) body).
  { intros found H.
    destruct (get_definitions_steps _ _ _ _ Hr Hs H)
      as (body & results & Hj & Hdata & _ & Htrue).
    exists body. split; [exact Hj|].
    apply py_getitem_ok in Hdata as (items & -> & Hdata).
    exists items, results. split; [reflexivity|]. split; [exact Hdata|].
    intro Ht.
    destruct (Htrue Ht)
      as (entry & jp & form & rd & jw & sn & f3 & gs & ds & subs & H0 & H1
          & H2 & H3 & _ & H5 & H6 & H7 & H8 & _).
    apply py_getitem_ok in H1 as (eitems & -> & H1).
    apply py_getitem_ok in H5 as (eitems' & [= <-] & H5).
    destruct (py_slice3_iter _ _ _ H6 H7) as (groups & Hit & ->).
    apply py_get_ok in H3 as (fitems & ->).
    apply py_getitem0_ok in H0 as [(rest & ->)|(c & rest & _ & [=])].
    apply py_getitem0_ok in H2 as [(forms & ->)|(c & forms & _ & [=])].
    exists eitems, rest, (PDict fitems), forms, sn, groups.
    repeat (split; [assumption || reflexivity|]).
    apply mapM_ok_Forall in H8.
    eapply Forall_impl; [|exact H8].
    intros v (x & Hx). apply py_getitem_ok in Hx as (vi & -> & Hx).
    now exists vi, x. }
  split; [exact Hret|].
  intro Hbad.
  destruct (get_definitions requests_get word) as [found|e] eqn:H;
    [|now exists e].
  destruct (Hret found eq_refl) as (body & Hj & Hshape).
  now destruct (Hbad body Hj).
Qed.

(** ** Worked runs *)

(** C1, at the file [犬, 猫]: the second pass handles two words, the first
    pass counts three pieces (the empty piece between the comma and the
    space is counted), and the progress reported is 1/3 and 2/3, not 1/2
    and 1. *)
Theorem progress_total_counts_empty_pieces :
  let content := lit "犬, 猫" ++ [LF] in
  let w := World (one_file IN_TXT content) 0 [] in
  file_words content = [lit "犬"; lit "猫"]
  /\ total_words content = 3%Z
  /\ ui_calls (snd (process_file inu_dictionary str_of eq_of IN_TXT OUT_TXT w))
     = [UpdateCheckingLabel (lit "犬"); ProgressCallback (1 # 3);
        UpdateCheckingLabel (lit "猫"); ProgressCallback (2 # 3);
        ClearCheckingLabel].
Proof. vm_compute. repeat split. Qed.

(** C2 as stated fails: with the network down, the lookup of the first
    word raises out of [process_file]; the output file is left empty, with
    no not-found section. *)
Lemma failed_connection_is_fatal :
  let w := World (one_file IN_TXT (lit "犬" ++ [LF])) 0 [] in
  let run := process_file no_network str_of eq_of IN_TXT OUT_TXT w in
  fst run = Raise ConnectionError
  /\ files (snd run) OUT_TXT = Some []
  /\ ui_calls (snd run) = [UpdateCheckingLabel (lit "犬")].
Proof. vm_compute. repeat split. Qed.

(** C10 as stated fails: the fourth sense of this answer has no
    [english_definitions] key, and the lookup returns a triple. *)
Lemma fourth_sense_is_not_examined :
  status_code four_senses_response = 200%Z
  /\ (forall body,
         json four_senses_response = Some body ->
         ~ shaped (fun groups => groups) body)
  /\ get_definitions (fun _ => Some four_senses_response) (lit "犬")
     = Ok (Some (PStr (lit "犬"), PStr (lit "いぬ"), [PStr (lit "dog")])).
Proof.
  split; [reflexivity|]. split; [|reflexivity].
  intros body [= <-] (items & results & [= <-] & Hdata & H).
  vm_compute in Hdata. injection Hdata as <-.
  destruct (H eq_refl)
    as (eitems & rest & form & forms & sn & groups & [= <- <-] & _ & Hsn
        & Hit & Hall).
  vm_compute in Hsn. injection Hsn as <-.
  vm_compute in Hit. injection Hit as <-.
  inversion_clear Hall as [|? ? _ Hall1].
  inversion_clear Hall1 as [|? ? _ Hall2].
  inversion_clear Hall2 as [|? ? _ Hall3].
  inversion_clear Hall3 as [|? ? (vi & x & Hvi & Hx) _].
  injection Hvi as <-. discriminate Hx.
Qed.

(** C9 on an empty input file: no word, no progress call. *)
Lemma empty_file_progress_witness :
  process_file no_network str_of eq_of IN_TXT OUT_TXT
    (World (one_file IN_TXT []) 0 [])
  = (Ok tt,
     World (write_file (one_file IN_TXT []) OUT_TXT []) 0
           [ClearCheckingLabel]).
Proof.
  apply (proj2 (proj2 (proj2
           (progress_fraction_in_unit_interval no_network str_of eq_of
              IN_TXT OUT_TXT (World (one_file IN_TXT []) 0 []))))
           []); reflexivity.
Defined.

(** C8 in a world without files. *)
Lemma unreadable_input_witness :
  files (World (fun _ => None) 0 []) IN_TXT = None
  /\ process_file no_network str_of eq_of IN_TXT OUT_TXT
       (World (fun _ => None) 0 [])
     = (Raise OSError, World (fun _ => None) 0 []).
Proof.
  split; [reflexivity|].
  apply (unreadable_input_leaves_no_output no_network str_of eq_of IN_TXT
           OUT_TXT (World (fun _ => None) 0 [])).
  reflexivity.
Defined.

(** C5 on the file [犬, 猫] with a service that knows 犬 only. *)
Lemma not_found_words_witness :
  let content := lit "犬, 猫" ++ [LF] in
  let w := World (one_file IN_TXT content) 0 [] in
  files (snd (process_file inu_dictionary str_of eq_of IN_TXT OUT_TXT w))
    OUT_TXT
  = Some (lit "犬[いぬ];dog;" ++ [LF] ++ [LF] ++ lit "Definition Not Found:"
            ++ [LF] ++ lit "猫" ++ [LF]).
Proof.
  intros content w.
  refine (eq_trans
            (not_found_words_in_trailing_section inu_dictionary str_of eq_of
               IN_TXT OUT_TXT content w
               (snd (process_file inu_dictionary str_of eq_of IN_TXT OUT_TXT w))
               _ _ _) _).
  - reflexivity.
  - intro H. vm_compute in H. discriminate H.
  - vm_compute. reflexivity.
  - vm_compute. reflexivity.
Defined.

(** C4 on the answer for 犬. *)
Lemma found_word_record_witness :
  outfile (state_of (process_word inu_dictionary str_of eq_of 1 (lit "犬")
                       (Run [] [] 0 0 [])))
  = [] ++ lit "犬[いぬ];dog;" ++ [LF].
Proof.
  apply (proj2 (found_word_record inu_dictionary str_of eq_of
                  (fun s => eq_refl) (fun a b => eq_refl))).
  vm_compute. reflexivity.
Defined.

(** C2 with a service that answers 404: 犬 is listed and 猫 comes next. *)
Lemma unsuccessful_status_witness :
  process_words empty_dictionary str_of eq_of 2 [lit "犬"; lit "猫"]
    (Run [] [] 0 0 [])
  = process_words empty_dictionary str_of eq_of 2 [lit "猫"]
      (Run [] [lit "犬"] 1 1
         [UpdateCheckingLabel (lit "犬");
          ProgressCallback (inject_Z 1 / inject_Z 2)]).
Proof.
  apply (proj1 (unsuccessful_status_is_not_fatal empty_dictionary str_of
                  eq_of)
           2%Z (lit "犬") [lit "猫"] (Run [] [] 0 0 []) (Response 404 None)).
  - reflexivity.
  - simpl. lia.
  - lia.
Defined.

(** The answer for 犬 has the documented shape. *)
Lemma inu_body_shape :
  exists body, json inu_response = Some body /\ is_body body inu_data.
Proof.
  eexists. split; [reflexivity|].
  eexists _, _. split; [reflexivity|]. split; [vm_compute; reflexivity|].
  repeat constructor.
  eexists _, _, _. split; [reflexivity|].
  split; [vm_compute; reflexivity|]. split.
  - repeat constructor. eexists. split; [reflexivity|].
    split; vm_compute; reflexivity.
  - split; [vm_compute; reflexivity|].
    repeat constructor. eexists. split; [reflexivity|].
    vm_compute; reflexivity.
Defined.

(** C3 on the answer for 犬. *)
Lemma no_result_witness :
  get_definitions (inu_dictionary 0) (lit "犬") = Ok None <->
  status_code inu_response <> 200%Z
  \/ inu_data = []
  \/ exists e rest f forms,
      inu_data = e :: rest /\ japanese e = f :: forms
      /\ (absent_or_empty (form_reading f) \/ absent_or_empty (surface_of f)
          \/ definitions_of e = []).
Proof.
  apply (no_result_exactly_when (inu_dictionary 0) (lit "犬") inu_response
           inu_data).
  - vm_compute. reflexivity.
  - intros _. exact inu_body_shape.
Defined.

(** C6 on the answer for 犬. *)
Lemma lookup_reads_first_entry_witness :
  get_definitions (inu_dictionary 0) (lit "犬")
  = Ok (Some (PStr (lit "犬"), PStr (lit "いぬ"), [PStr (lit "dog")])).
Proof.
  destruct inu_body_shape as (body & Hj & Hshape).
  apply (lookup_reads_first_entry (inu_dictionary 0) (lit "犬") inu_response
           body inu_data _ _ _ eq_refl eq_refl Hj Hshape).
  eexists _, _, _, _, _.
  split; [reflexivity|]. split; [reflexivity|]. split; [reflexivity|].
  repeat split. discriminate.
Defined.

(** C10 on the answer for 犬. *)
Lemma lookup_returns_witness :
  exists body, json inu_response = Some body /\ shaped (firstn 3) body.
Proof.
  apply (proj1 (lookup_returns_only_on_shaped_body (inu_dictionary 0)
                  (lit "犬") inu_response eq_refl eq_refl)
           (Some (PStr (lit "犬"), PStr (lit "いぬ"), [PStr (lit "dog")]))).
  vm_compute. reflexivity.
Defined.

(** * Further properties *)

(** ** Words of a line *)

Section Tokens.

Variable p : N -> bool.

(** The pieces of a concatenation: the last piece of the first part and the
    first piece of the second are joined. *)
Lemma split_on_app (a b : str) :
  exists xs x y ys,
    split_on p a = xs ++ [x] /\ split_on p b = y :: ys
    /\ split_on p (a ++ b) = xs ++ (x ++ y) :: ys.
Proof.
  destruct (split_on_cons p b) as (y & ys & Hb).
  induction a as [|c a (xs & x & y' & ys' & Ha & Hb' & Hab)].
  - exists [], [], y, ys. simpl. now rewrite Hb.
  - rewrite Hb in Hb'. injection Hb' as <- <-.
    simpl. rewrite Ha, Hab. destruct (p c).
    + exists ([] :: xs), x, y, ys. now rewrite Hb.
    + destruct xs as [|z zs]; simpl.
      * exists [], (c :: x), y, ys. now rewrite Hb.
      * exists ((c :: z) :: zs), x, y, ys. now rewrite Hb.
Qed.

Lemma split_on_sep (a b : str) (c : N) :
  p c = true -> split_on p (a ++ c :: b) = split_on p a ++ split_on p b.
Proof.
  intro Hc. destruct (split_on_app a (c :: b))
    as (xs & x & y & ys & Ha & Hb & ->).
  simpl in Hb. rewrite Hc in Hb. injection Hb as <- <-.
  rewrite Ha, app_nil_r, <- app_assoc. reflexivity.
Qed.

Lemma tokens_on_sep (a b : str) (c : N) :
  p c = true -> tokens_on p (a ++ c :: b) = tokens_on p a ++ tokens_on p b.
Proof.
  intro Hc. unfold tokens_on.
  now rewrite split_on_sep, map_app, filter_app.
Qed.

End Tokens.

(** *** Trimming *)

Lemma lstrip_idem (s : str) : lstrip (lstrip s) = lstrip s.
Proof.
  induction s as [|c s IH]; simpl; [reflexivity|].
  destruct (isspace c) eqn:Hc; [exact IH|]. simpl. now rewrite Hc.
Qed.

Lemma lstrip_app_space (x : str) (c : N) :
  isspace c = true ->
  lstrip (x ++ [c]) = if blank x then [] else lstrip x ++ [c].
Proof.
  intro Hc. induction x as [|a x IH]; simpl.
  - now rewrite Hc.
  - destruct (isspace a); simpl; [exact IH | reflexivity].
Qed.

Lemma lstrip_app_solid (x : str) (c : N) :
  isspace c = false -> lstrip (x ++ [c]) = lstrip x ++ [c].
Proof.
  intro Hc. induction x as [|a x IH]; simpl.
  - now rewrite Hc.
  - destruct (isspace a); [exact IH | reflexivity].
Qed.

Lemma lstrip_nil_blank (x : str) : blank x = true -> lstrip x = [].
Proof.
  intro H. pose proof (lstrip_blank x) as Hl. rewrite H in Hl.
  now destruct (lstrip x).
Qed.

Lemma rstrip_snoc_space (y : str) (c : N) :
  isspace c = true -> rstrip (y ++ [c]) = rstrip y.
Proof.
  intro Hc. unfold rstrip. rewrite rev_app_distr. simpl. now rewrite Hc.
Qed.

Lemma strip_snoc_space (x : str) (c : N) :
  isspace c = true -> strip (x ++ [c]) = strip x.
Proof.
  intro Hc. unfold strip. rewrite (lstrip_app_space x c Hc).
  destruct (blank x) eqn:Hb.
  - now rewrite (lstrip_nil_blank x Hb).
  - now apply rstrip_snoc_space.
Qed.

Lemma strip_cons_space (x : str) (c : N) :
  isspace c = true -> strip (c :: x) = strip x.
Proof. intro Hc. unfold strip. simpl. now rewrite Hc. Qed.

Lemma rstrip_idem (s : str) : rstrip (rstrip s) = rstrip s.
Proof. unfold rstrip. now rewrite rev_involutive, lstrip_idem. Qed.

(** A string that starts with a character other than whitespace, or is
    empty, still does after its end has been trimmed. *)
Lemma lstrip_rstrip_fixed (y : str) :
  lstrip y = y -> lstrip (rstrip y) = rstrip y.
Proof.
  destruct y as [|c t]; [reflexivity|]. simpl.
  destruct (isspace c) eqn:Hc.
  - intro H. exfalso.
    destruct (lstrip_prefix t) as (w & Hw & _).
    rewrite H in Hw. apply (f_equal (@length N)) in Hw.
    rewrite length_app in Hw. simpl in Hw. lia.
  - intros _. unfold rstrip. simpl.
    rewrite (lstrip_app_solid _ _ Hc), rev_app_distr. simpl.
    now rewrite Hc.
Qed.

Lemma strip_idem (s : str) : strip (strip s) = strip s.
Proof.
  unfold strip at 1. unfold strip.
  rewrite (lstrip_rstrip_fixed (lstrip s) (lstrip_idem s)).
  apply rstrip_idem.
Qed.

Lemma forallb_lstrip (f : N -> bool) (s : str) :
  forallb f s = true -> forallb f (lstrip s) = true.
Proof.
  intro H. destruct (lstrip_prefix s) as (w & Hw & _).
  rewrite Hw, forallb_app in H. now apply andb_prop in H.
Qed.

Lemma forallb_strip (f : N -> bool) (s : str) :
  forallb f s = true -> forallb f (strip s) = true.
Proof.
  intro H. apply forallb_lstrip in H. unfold strip.
  destruct (rstrip_suffix (lstrip s)) as (w & Hw & _).
  rewrite Hw, forallb_app in H. now apply andb_prop in H.
Qed.

(** *** Words *)

Lemma words_tokens (line : str) : words line = tokens_on is_separator line.
Proof.
  unfold words, tokens_on. rewrite split_line. apply map_filter_truthy.
Qed.

Section MoreTokens.

Variable p : N -> bool.

Lemma tokens_on_cons_sep (c : N) (s : str) :
  p c = true -> tokens_on p (c :: s) = tokens_on p s.
Proof. intro Hc. unfold tokens_on. simpl. now rewrite Hc. Qed.

Lemma tokens_on_cons_space (c : N) (s : str) :
  isspace c = true -> tokens_on p (c :: s) = tokens_on p s.
Proof.
  intro Hc. destruct (p c) eqn:Hp; [now apply tokens_on_cons_sep|].
  unfold tokens_on. simpl. rewrite Hp.
  destruct (split_on_cons p s) as (x & xs & ->). simpl.
  now rewrite (strip_cons_space x c Hc).
Qed.

Lemma tokens_on_snoc_space (c : N) (s : str) :
  isspace c = true -> tokens_on p (s ++ [c]) = tokens_on p s.
Proof.
  intro Hc. unfold tokens_on.
  destruct (split_on_app p s [c]) as (xs & x & y & ys & Hs & Hb & ->).
  rewrite Hs, !map_app, !filter_app. f_equal. simpl in Hb.
  destruct (p c).
  - injection Hb as <- <-. rewrite app_nil_r. simpl.
    now destruct (str_truthy (strip x)).
  - injection Hb as <- <-. simpl. now rewrite (strip_snoc_space x c Hc).
Qed.

Lemma tokens_on_app_blank (s w : str) :
  blank w = true -> tokens_on p (s ++ w) = tokens_on p s.
Proof.
  revert s. induction w as [|c w IH]; intros s Hb.
  - now rewrite app_nil_r.
  - simpl in Hb. apply andb_prop in Hb as [Hc Hw].
    change (c :: w) with ([c] ++ w). rewrite app_assoc, IH by assumption.
    now apply tokens_on_snoc_space.
Qed.

Lemma tokens_on_blank_app (w s : str) :
  blank w = true -> tokens_on p (w ++ s) = tokens_on p s.
Proof.
  induction w as [|c w IH]; intro Hb; [reflexivity|].
  simpl in Hb. apply andb_prop in Hb as [Hc Hw]. simpl.
  rewrite tokens_on_cons_space by assumption. now apply IH.
Qed.

Lemma tokens_on_seps_app (seps s : str) :
  forallb p seps = true -> tokens_on p (seps ++ s) = tokens_on p s.
Proof.
  induction seps as [|c seps IH]; intro H; [reflexivity|].
  simpl in H. apply andb_prop in H as [Hc Hs]. simpl.
  rewrite tokens_on_cons_sep by assumption. now apply IH.
Qed.

(** No piece holds a separator. *)
Lemma split_on_pieces (s : str) :
  Forall (fun x => forallb (fun c => negb (p c)) x = true) (split_on p s).
Proof.
  induction s as [|c s IH]; simpl; [repeat constructor|].
  destruct (p c) eqn:Hc; [now constructor|].
  destruct (split_on p s) as [|x xs]; [repeat constructor; simpl; now rewrite Hc|].
  inversion_clear IH as [|? ? Hx Hxs]. constructor; [|exact Hxs].
  simpl. now rewrite Hc.
Qed.

(** A string without separator is its only piece. *)
Lemma split_on_whole (s : str) :
  forallb (fun c => negb (p c)) s = true -> split_on p s = [s].
Proof.
  induction s as [|c s IH]; simpl; [reflexivity|].
  intro H. apply andb_prop in H as [Hc Hs].
  apply negb_true_iff in Hc. rewrite Hc, (IH Hs). reflexivity.
Qed.

End MoreTokens.

Lemma clean_token_tokens (word : str) :
  clean_token word -> tokens_on is_separator word = [word].
Proof.
  intros (Hne & Hstrip & Hsep). unfold tokens_on.
  rewrite (split_on_whole _ _ Hsep). simpl. rewrite Hstrip.
  destruct word; [contradiction | reflexivity].
Qed.

(** X1: every word of a line is clean: it is not empty, it has no
    whitespace at either end, and it holds no comma, Japanese comma or
    space. *)
Theorem words_are_clean (line : str) : Forall clean_token (words line).
Proof.
  rewrite words_tokens. unfold tokens_on.
  pose proof (split_on_pieces is_separator line) as Hp.
  induction Hp as [|x xs Hx _ IH]; simpl; [constructor|].
  destruct (str_truthy (strip x)) eqn:Ht; [|exact IH].
  constructor; [|exact IH]. split; [|split].
  - intro E. rewrite E in Ht. discriminate.
  - apply strip_idem.
  - now apply forallb_strip.
Qed.

(** X2: the words of a line come back from the line written with them:
    clean words joined by any non-empty run of commas, Japanese commas and
    spaces, indented and followed by any whitespace (a newline, say), are
    the words of that line, in order. *)
Theorem words_of_joined_line (ws : list str) (sep indent trail : str) :
  Forall clean_token ws ->
  sep <> [] ->
  forallb is_separator sep = true ->
  blank indent = true ->
  blank trail = true ->
  words (indent ++ join sep ws ++ trail) = ws.
Proof.
  intros Hws Hne Hsep Hi Ht.
  rewrite words_tokens, tokens_on_blank_app, tokens_on_app_blank
    by assumption.
  induction Hws as [|w ws Hw Hws IH]; [reflexivity|].
  destruct ws as [|w2 ws].
  - simpl. now apply clean_token_tokens.
  - change (join sep (w :: w2 :: ws)) with (w ++ sep ++ join sep (w2 :: ws)).
    destruct sep as [|c sep]; [contradiction|].
    simpl in Hsep. apply andb_prop in Hsep as [Hc Hs].
    change ((c :: sep) ++ join (c :: sep) (w2 :: ws))
      with (c :: (sep ++ join (c :: sep) (w2 :: ws))).
    rewrite tokens_on_sep by assumption.
    rewrite (clean_token_tokens w Hw), tokens_on_seps_app by assumption.
    simpl. f_equal. apply IH.
Qed.

(** X3: a comma, a Japanese comma or a space cuts a line in two lines'
    worth of words: the words of the whole are those of the part before it
    followed by those of the part after it. *)
Theorem words_at_separator (a b : str) (c : N) :
  is_separator c = true -> words (a ++ c :: b) = words a ++ words b.
Proof. intro Hc. rewrite !words_tokens. now apply tokens_on_sep. Qed.

(** ** Words of a file *)

Lemma keepends_line (l rest : str) :
  no_lf l = true -> keepends (l ++ LF :: rest) = (l ++ [LF]) :: keepends rest.
Proof.
  induction l as [|c l IH]; simpl; [reflexivity|].
  intro H. apply andb_prop in H as [Hc Hl].
  apply negb_true_iff in Hc. rewrite Hc, (IH Hl). reflexivity.
Qed.

Lemma keepends_last (l : str) :
  no_lf l = true -> l <> [] -> keepends l = [l].
Proof.
  induction l as [|c l IH]; [contradiction|]. simpl.
  intros H _. apply andb_prop in H as [Hc Hl].
  apply negb_true_iff in Hc. rewrite Hc.
  destruct l as [|d l]; [reflexivity|].
  rewrite (IH Hl) by discriminate. reflexivity.
Qed.

Lemma first_line (u : str) :
  no_lf u = true
  \/ exists l rest, u = l ++ LF :: rest /\ no_lf l = true.
Proof.
  induction u as [|c u [H|(l & rest & -> & Hl)]]; [now left| |].
  - destruct (c =? LF) eqn:Hc.
    + right. exists [], u. apply N.eqb_eq in Hc. now subst c.
    + left. simpl. now rewrite Hc.
  - right. destruct (c =? LF) eqn:Hc.
    + exists [], (l ++ LF :: rest). apply N.eqb_eq in Hc. now subst c.
    + exists (c :: l), rest. simpl. now rewrite Hc.
Qed.

Lemma split_on_ext (p q : N -> bool) (s : str) :
  (forall c, In c s -> p c = q c) -> split_on p s = split_on q s.
Proof.
  induction s as [|c s IH]; intro H; simpl; [reflexivity|].
  rewrite <- (H c (or_introl eq_refl)), IH; [reflexivity|].
  intros d Hd. apply H. now right.
Qed.

Lemma tokens_no_lf (l : str) :
  no_lf l = true ->
  tokens_on separator_or_lf l = tokens_on is_separator l.
Proof.
  intro H. unfold tokens_on. f_equal. f_equal. apply split_on_ext.
  intros c Hc. unfold separator_or_lf, no_lf in *.
  rewrite forallb_forall in H. specialize (H c Hc).
  apply negb_true_iff in H. rewrite H. apply orb_false_r.
Qed.

(** The words of the lines are the words between separators and newlines. *)
Lemma lines_words_tokens (u : str) :
  flat_map words (keepends u) = tokens_on separator_or_lf u.
Proof.
  remember (length u) as n eqn:Hn. revert u Hn.
  induction n as [n IH] using lt_wf_ind. intros u ->.
  destruct (first_line u) as [H|(l & rest & -> & Hl)].
  - destruct u as [|c u]; [reflexivity|].
    rewrite keepends_last by (assumption || discriminate).
    simpl. rewrite app_nil_r, words_tokens. symmetry.
    now apply tokens_no_lf.
  - rewrite keepends_line by assumption. simpl.
    rewrite tokens_on_sep by reflexivity.
    rewrite (IH (length rest)) with (u := rest); [|rewrite length_app; simpl; lia | reflexivity].
    f_equal. rewrite words_tokens, tokens_on_snoc_space by reflexivity.
    symmetry. now apply tokens_no_lf.
Qed.

Lemma universal_newlines_crlf (t : str) :
  universal_newlines (CR :: LF :: t) = LF :: universal_newlines t.
Proof. reflexivity. Qed.

Lemma universal_newlines_cr (d : N) (t : str) :
  (d =? LF) = false ->
  universal_newlines (CR :: d :: t) = LF :: universal_newlines (d :: t).
Proof.
  intro Hd. change (universal_newlines (CR :: d :: t))
    with (LF :: if d =? LF then universal_newlines t
                else universal_newlines (d :: t)).
  now rewrite Hd.
Qed.

Lemma universal_newlines_other (c : N) (t : str) :
  (c =? CR) = false ->
  universal_newlines (c :: t) = c :: universal_newlines t.
Proof.
  intro Hc. change (universal_newlines (c :: t))
    with (if c =? CR
          then LF :: match t with
                     | [] => []
                     | d :: t' =>
                       if d =? LF then universal_newlines t'
                       else universal_newlines t
                     end
          else c :: universal_newlines t).
  now rewrite Hc.
Qed.

(** Newline translation against separators: the first piece is the same,
    and so are the words of the later pieces. *)
Lemma universal_newlines_pieces (n : nat) (s : str) :
  (length s <= n)%nat ->
  hd [] (split_on separator_or_lf (universal_newlines s))
  = hd [] (split_on is_break s)
  /\ filter str_truthy
       (map strip (tl (split_on separator_or_lf (universal_newlines s))))
     = filter str_truthy (map strip (tl (split_on is_break s))).
Proof.
  revert s. induction n as [|n IH]; intros s Hlen.
  - destruct s; [split; reflexivity | simpl in Hlen; lia].
  - destruct s as [|c t]; [split; reflexivity|].
    simpl in Hlen.
    assert (Hall : forall u, (length u <= n)%nat ->
               filter str_truthy
                 (map strip (split_on separator_or_lf (universal_newlines u)))
               = filter str_truthy (map strip (split_on is_break u))).
    { intros u Hu. destruct (IH u Hu) as [Hh Ht].
      destruct (split_on_cons separator_or_lf (universal_newlines u))
        as (x & xs & Hx).
      destruct (split_on_cons is_break u) as (y & ys & Hy).
      rewrite Hx, Hy in *. simpl in *. subst y.
      destruct (str_truthy (strip x)); now rewrite Ht. }
    destruct (c =? CR) eqn:Hcr.
    + apply N.eqb_eq in Hcr. subst c.
      change (split_on is_break (CR :: t)) with ([] :: split_on is_break t).
      destruct t as [|d t']; [split; reflexivity|].
      destruct (d =? LF) eqn:Hd.
      * apply N.eqb_eq in Hd. subst d.
        rewrite universal_newlines_crlf.
        change (split_on is_break (LF :: t'))
          with ([] :: split_on is_break t').
        change (split_on separator_or_lf (LF :: universal_newlines t'))
          with ([] :: split_on separator_or_lf (universal_newlines t')).
        split; [reflexivity|]. cbn [tl]. simpl in Hlen.
        rewrite Hall by lia. reflexivity.
      * rewrite (universal_newlines_cr d t' Hd).
        change (split_on separator_or_lf
                  (LF :: universal_newlines (d :: t')))
          with ([] :: split_on separator_or_lf
                        (universal_newlines (d :: t'))).
        split; [reflexivity|]. cbn [tl]. apply Hall. lia.
    + rewrite (universal_newlines_other c t Hcr).
      assert (Hb : is_break c = separator_or_lf c).
      { unfold is_break. fold (separator_or_lf c). rewrite Hcr.
        apply orb_false_r. }
      cbn [split_on]. rewrite Hb.
      destruct (separator_or_lf c).
      * split; [reflexivity|]. cbn [tl]. apply Hall. lia.
      * destruct (IH t ltac:(lia)) as [Hh Ht].
        destruct (split_on_cons separator_or_lf (universal_newlines t))
          as (x & xs & Hx).
        destruct (split_on_cons is_break t) as (y & ys & Hy).
        rewrite Hx, Hy in *. simpl in *. subst y. split; [reflexivity|].
        exact Ht.
Qed.

Lemma universal_newlines_tokens (s : str) :
  tokens_on separator_or_lf (universal_newlines s) = tokens_on is_break s.
Proof.
  destruct (universal_newlines_pieces (length s) s (le_n _)) as [Hh Ht].
  unfold tokens_on.
  destruct (split_on_cons separator_or_lf (universal_newlines s))
    as (x & xs & Hx).
  destruct (split_on_cons is_break s) as (y & ys & Hy).
  rewrite Hx, Hy in *. simpl in *. subst y.
  destruct (str_truthy (strip x)); now rewrite Ht.
Qed.

(** X4: the lines of the input file do not matter to the second pass: its
    words are the pieces of the whole text between commas, Japanese commas,
    spaces, line feeds and carriage returns, trimmed, the empty ones
    dropped. *)
Theorem file_words_ignore_lines (content : str) :
  file_words content = tokens_on is_break content.
Proof.
  unfold file_words, file_lines.
  rewrite lines_words_tokens. apply universal_newlines_tokens.
Qed.

(** ** When the first pass counts the words exactly *)

Lemma filter_length_all {A} (f : A -> bool) (l : list A) :
  length (filter f l) = length l <-> Forall (fun x => f x = true) l.
Proof.
  induction l as [|x l IH]; simpl; [split; [constructor | reflexivity]|].
  pose proof (filter_length_le f l) as Hle.
  destruct (f x) eqn:Hx; simpl; split.
  - intros [= H]. constructor; [exact Hx | now apply IH].
  - intro H. inversion_clear H. f_equal. now apply IH.
  - intro H. lia.
  - intro H. inversion_clear H. congruence.
Qed.

Lemma sum_eq_termwise {A} (f g : A -> Z) (l : list A) :
  (forall x, f x <= g x)%Z ->
  fold_right Z.add 0%Z (map f l) = fold_right Z.add 0%Z (map g l)
  <-> Forall (fun x => f x = g x) l.
Proof.
  intro Hle.
  assert (Hsum : forall l, (fold_right Z.add 0 (map f l)
                            <= fold_right Z.add 0 (map g l))%Z).
  { intro l0. induction l0 as [|y l0 IH]; simpl; [lia|].
    specialize (Hle y). lia. }
  induction l as [|x l IH]; simpl; [split; [constructor | reflexivity]|].
  pose proof (Hle x) as Hx0. pose proof (Hsum l) as Hl0. split.
  - intro H. constructor; [lia|]. apply IH. lia.
  - intro H. inversion_clear H as [|? ? Hx Hl]. apply IH in Hl. lia.
Qed.

Lemma flat_map_length_sum {A B} (f : A -> list B) (l : list A) :
  Z.of_nat (length (flat_map f l))
  = fold_right Z.add 0%Z (map (fun x => Z.of_nat (length (f x))) l).
Proof.
  induction l as [|x l IH]; simpl; [reflexivity|].
  rewrite length_app, Nat2Z.inj_add, IH. reflexivity.
Qed.

(** X5: the total of the first pass is the number of words of the second
    pass exactly when, on every line, every piece the first pass counts
    holds a character other than whitespace: no blank line, no two
    separators in a row inside a line. *)
Theorem total_is_word_count_iff (content : str) :
  total_words content = Z.of_nat (length (file_words content))
  <-> Forall
        (fun line =>
           Forall (fun piece => blank piece = false)
             (split COMMA
                (replace SPACE COMMA
                   (strip (replace IDEOGRAPHIC_COMMA COMMA line)))))
        (file_lines content).
Proof.
  unfold total_words, file_words. rewrite flat_map_length_sum.
  split.
  - intro H. symmetry in H.
    apply (sum_eq_termwise _ _ _ (fun l => proj1 (words_le_count_line l)))
      in H.
    eapply Forall_impl; [|exact H]. intros line Hl. simpl in Hl.
    unfold count_line in Hl. apply Nat2Z.inj in Hl.
    rewrite words_length, <- (solid_strip comma_or_space), <- split_spaces
      in Hl.
    apply filter_length_all in Hl.
    eapply Forall_impl; [|exact Hl]. intros x Hx. simpl in Hx.
    now apply negb_true_iff.
  - intro H. symmetry.
    apply (sum_eq_termwise _ _ _ (fun l => proj1 (words_le_count_line l))).
    eapply Forall_impl; [|exact H]. intros line Hl. simpl.
    unfold count_line. f_equal.
    rewrite words_length, <- (solid_strip comma_or_space), <- split_spaces.
    apply filter_length_all.
    eapply Forall_impl; [|exact Hl]. intros x Hx. simpl.
    now apply negb_true_iff.
Qed.

(** ** The world after a run *)

Section Runs.

Variable net : nat -> str -> option response.
Variable py_str : pyval -> str.
Variable py_eq : pyval -> pyval -> bool.

Local Abbreviation run_word := (process_word net py_str py_eq).
Local Abbreviation run_words := (process_words net py_str py_eq).

Lemma report_progress_calls total st st' :
  report_progress total st = Done st' ->
  total <> 0%Z
  /\ words_checked st' = (words_checked st + 1)%Z
  /\ calls st'
     = calls st ++ [ProgressCallback
                      (inject_Z (words_checked st + 1) / inject_Z total)].
Proof.
  unfold report_progress, py_truediv. cbv zeta. simpl words_checked.
  destruct (Z.eqb_spec total 0) as [->|Hne]; [discriminate|].
  intros [= <-]. repeat split. exact Hne.
Qed.

Lemma process_word_calls total word st st' :
  run_word total word st = Done st' ->
  words_checked st' = (words_checked st + 1)%Z
  /\ calls st'
     = calls st ++ [UpdateCheckingLabel word;
                    ProgressCallback
                      (inject_Z (words_checked st + 1) / inject_Z total)].
Proof.
  unfold process_word. cbv zeta.
  destruct (get_definitions _ word) as [found|e]; [|discriminate].
  set (st1 := Run _ _ _ (S _) _).
  destruct (record_result py_str py_eq word found st1) as [st2|e] eqn:Hr;
    [|discriminate].
  apply record_result_frame in Hr as (Hc & _ & Hl). simpl in Hc, Hl.
  intro Hp. apply report_progress_calls in Hp as (_ & Hc' & Hl').
  rewrite Hc', Hl', Hc, Hl, <- app_assoc. split; reflexivity.
Qed.

Lemma process_words_calls total (ws : list str) st st' :
  run_words total ws st = Done st' ->
  calls st' = calls st ++ progress_calls total (words_checked st) ws
  /\ sent st' = (sent st + length ws)%nat.
Proof.
  revert st. induction ws as [|word ws IH]; intro st; simpl.
  - intros [= <-]. now rewrite app_nil_r, Nat.add_0_r.
  - destruct (run_word total word st) as [st1|e st1] eqn:Hw; [|discriminate].
    intro Hws. apply IH in Hws as [Hl Hs].
    pose proof (process_word_done _ _ _ _ _ _ _ Hw) as [Hs1 _].
    apply process_word_calls in Hw as [Hc1 Hl1].
    rewrite Hl, Hs, Hl1, Hc1, Hs1, <- app_assoc. split; [reflexivity | lia].
Qed.




End Runs.

(** X6: a run that completes has called, for each word of the file in
    order, the label callback with the word and then the progress callback
    with the number of words counted so far over the total of the first
    pass, and has ended with the one call that clears the label. *)
Theorem completed_run_calls
    (net : nat -> str -> option response) (py_str : pyval -> str)
    (py_eq : pyval -> pyval -> bool) (input output content : str)
    (w w' : world) :
  files w input = Some content ->
  input <> output ->
  process_file net py_str py_eq input output w = (Ok tt, w') ->
  ui_calls w'
  = ui_calls w
      ++ progress_calls (total_words content) 0 (file_words content)
      ++ [ClearCheckingLabel].
Proof.
  intros Hin Hne. unfold process_file. rewrite Hin. cbv zeta.
  rewrite write_file_other, Hin by exact Hne.
  rewrite process_lines_words. fold (file_words content).
  destruct (process_words net py_str py_eq _ (file_words content) _)
    as [st|e st] eqn:Hrun; [|discriminate].
  intros [= <-]. simpl ui_calls.
  apply process_words_calls in Hrun as [Hl _]. simpl in Hl.
  rewrite write_not_found_eq. simpl calls.
  now rewrite Hl, <- app_assoc.
Qed.

(** X7: a run that completes has sent one request per word of the file,
    repeated words included: nothing is looked up twice and nothing is
    remembered. *)
Theorem completed_run_requests
    (net : nat -> str -> option response) (py_str : pyval -> str)
    (py_eq : pyval -> pyval -> bool) (input output content : str)
    (w w' : world) :
  files w input = Some content ->
  input <> output ->
  process_file net py_str py_eq input output w = (Ok tt, w') ->
  requests_sent w' = (requests_sent w + length (file_words content))%nat.
Proof.
  intros Hin Hne. unfold process_file. rewrite Hin. cbv zeta.
  rewrite write_file_other, Hin by exact Hne.
  rewrite process_lines_words. fold (file_words content).
  destruct (process_words net py_str py_eq _ (file_words content) _)
    as [st|e st] eqn:Hrun; [|discriminate].
  intros [= <-]. simpl requests_sent.
  apply process_words_calls in Hrun as [_ Hs]. simpl in Hs.
  now rewrite write_not_found_eq.
Qed.


(** X9: given its input path as its output path, [process_file] empties
    the file and completes without having looked up a word: the words are
    lost. *)
Theorem same_path_empties_file
    (net : nat -> str -> option response) (py_str : pyval -> str)
    (py_eq : pyval -> pyval -> bool) (path content : str) (w : world) :
  files w path = Some content ->
  process_file net py_str py_eq path path w
  = (Ok tt,
     World (write_file (files w) path []) (requests_sent w)
           (ui_calls w ++ [ClearCheckingLabel])).
Proof.
  intro Hin. unfold process_file. rewrite Hin. cbv zeta.
  rewrite write_file_same. reflexivity.
Qed.

(** X10: whatever the outcome, [process_file] changes no file but the
    output file. *)
Theorem other_files_untouched
    (net : nat -> str -> option response) (py_str : pyval -> str)
    (py_eq : pyval -> pyval -> bool) (input output p : str) (w : world) :
  p <> output ->
  files (snd (process_file net py_str py_eq input output w)) p = files w p.
Proof.
  intro Hp. unfold process_file.
  destruct (files w input); [|reflexivity]. cbv zeta.
  destruct (process_lines _ _ _ _ _ _); simpl; now apply write_file_other.
Qed.

(** ** More on lookups *)

Lemma get_definitions_defs requests_get word surface reading defs :
  get_definitions requests_get word = Ok (Some (surface, reading, defs)) ->
  exists l, defs = firstn 3 l.
Proof.
  intro H.
  destruct (requests_get (SEARCH_URL ++ word)) as [resp|] eqn:Hr.
  2:{ unfold get_definitions in H. cbv zeta in H. rewrite Hr in H.
      discriminate. }
  destruct (Z.eq_dec (status_code resp) 200) as [Hs|Hs].
  2:{ rewrite (get_definitions_unsuccessful _ _ _ Hr Hs) in H.
      discriminate. }
  destruct (get_definitions_steps _ _ _ _ Hr Hs H)
    as (body & results & _ & _ & Hfalse & Htrue).
  destruct (py_truthy results).
  2:{ specialize (Hfalse eq_refl). discriminate. }
  destruct (Htrue eq_refl)
    as (entry & jp & form & rd & jw & sn & f3 & gs & ds & subs & Hsteps).
  decompose [and] Hsteps. clear Hsteps.
  match goal with Hf : Some _ = _ |- _ => rename Hf into Hfound end.
  destruct (_ && _); [|discriminate].
  injection Hfound as _ _ ->. now exists (concat subs).
Qed.

(** X11: whatever the service answers, a triple [get_definitions] returns
    has a surface form and a reading that are true values, and between one
    and three definitions. *)
Theorem returned_triple_bounds
    (requests_get : str -> option response) (word : str)
    (surface reading : pyval) (defs : list pyval) :
  get_definitions requests_get word = Ok (Some (surface, reading, defs)) ->
  py_truthy surface = true /\ py_truthy reading = true
  /\ (1 <= length defs <= 3)%nat.
Proof.
  intro H.
  destruct (get_definitions_truthy _ _ _ _ _ H) as (Hs & Hr & Hd).
  destruct (get_definitions_defs _ _ _ _ _ H) as (l & ->).
  repeat split; try assumption.
  - destruct (firstn 3 l); [contradiction | simpl; lia].
  - apply firstn_le_length.
Qed.

(** X12: the reading stands in for the word only when the form has no
    [word] key.  A [word] that is present but false (an empty string,
    [null]) is kept, and the lookup returns no result (or raises, on a
    body that is malformed elsewhere), whatever the reading. *)
Theorem false_word_is_not_replaced
    (requests_get : str -> option response) (word : str) (resp : response)
    (items eitems fitems : list (str * pyval)) (rest forms : list pyval)
    (v : pyval) :
  requests_get (SEARCH_URL ++ word) = Some resp ->
  status_code resp = 200%Z ->
  json resp = Some (PDict items) ->
  dict_get items (lit "data") = Some (PList (PDict eitems :: rest)) ->
  dict_get eitems (lit "japanese") = Some (PList (PDict fitems :: forms)) ->
  dict_get fitems (lit "word") = Some v ->
  py_truthy v = false ->
  get_definitions requests_get word = Ok None
  \/ exists e, get_definitions requests_get word = Raise e.
Proof.
  intros Hr Hs Hj Hd Hjp Hw Hv.
  destruct (get_definitions requests_get word) as [[triple|]|e] eqn:H;
    [exfalso | now left | right; now exists e].
  destruct (get_definitions_steps _ _ _ _ Hr Hs H)
    as (body & results & Hj' & Hdata & _ & Htrue).
  rewrite Hj in Hj'. injection Hj' as <-.
  simpl in Hdata. rewrite Hd in Hdata. injection Hdata as <-.
  destruct (Htrue eq_refl)
    as (entry & jp & form & rd & jw & sn & f3 & gs & ds & subs & H0 & H1
        & H2 & _ & H4 & _ & _ & _ & _ & _ & Hfound).
  simpl in H0. injection H0 as <-.
  simpl in H1. rewrite Hjp in H1. injection H1 as <-.
  simpl in H2. injection H2 as <-.
  simpl in H4. rewrite Hw in H4. injection H4 as <-.
  rewrite Hv, andb_false_r in Hfound. discriminate.
Qed.

(** X13: on a successful status and a body of the documented shape, the
    lookup looks at nothing but the first form of the first entry and the
    first three senses of that entry: two answers that agree on these give
    the same result, whatever their other entries, forms and senses and
    whatever the word asked for. *)
Theorem lookup_depends_on_first_entry
    (get1 get2 : str -> option response) (word1 word2 : str)
    (resp1 resp2 : response) (body1 body2 : pyval)
    (e1 e2 : entry) (rest1 rest2 : list entry) :
  get1 (SEARCH_URL ++ word1) = Some resp1 ->
  get2 (SEARCH_URL ++ word2) = Some resp2 ->
  status_code resp1 = 200%Z -> status_code resp2 = 200%Z ->
  json resp1 = Some body1 -> json resp2 = Some body2 ->
  is_body body1 (e1 :: rest1) -> is_body body2 (e2 :: rest2) ->
  hd_error (japanese e1) = hd_error (japanese e2) ->
  firstn 3 (senses e1) = firstn 3 (senses e2) ->
  get_definitions get1 word1 = get_definitions get2 word2.
Proof.
  intros Hr1 Hr2 Hs1 Hs2 Hj1 Hj2 Hb1 Hb2 Hf Hsn.
  rewrite (get_definitions_shaped _ _ _ _ _ Hr1 Hs1 Hj1 Hb1).
  rewrite (get_definitions_shaped _ _ _ _ _ Hr2 Hs2 Hj2 Hb2).
  unfold spec_lookup, definitions_of. rewrite Hsn.
  destruct (japanese e1) as [|f1 fs1]; destruct (japanese e2) as [|f2 fs2];
    simpl in Hf; try discriminate; [reflexivity|].
  now injection Hf as ->.
Qed.

(** X14: on a successful status and a body of the documented shape,
    [get_definitions] raises exactly when the first entry has no form, and
    what it raises then is [IndexError]. *)
Theorem shaped_body_raises_iff
    (requests_get : str -> option response) (word : str) (resp : response)
    (body : pyval) (data : list entry) (e : exn) :
  requests_get (SEARCH_URL ++ word) = Some resp ->
  status_code resp = 200%Z ->
  json resp = Some body ->
  is_body body data ->
  (get_definitions requests_get word = Raise e <->
   e = IndexError /\ exists first rest, data = first :: rest
                                         /\ japanese first = []).
Proof.
  intros Hr Hs Hj Hb.
  rewrite (get_definitions_shaped _ _ _ _ _ Hr Hs Hj Hb).
  unfold spec_lookup. split.
  - destruct data as [|first rest]; [discriminate|].
    destruct (japanese first) as [|f fs] eqn:Hf.
    + intros [= <-]. split; [reflexivity|]. now exists first, rest.
    + destruct (form_reading f) as [[|? ?]|]; try discriminate.
      destruct (surface_of f) as [[|? ?]|]; try discriminate.
      destruct (definitions_of first); discriminate.
  - intros (-> & first & rest & -> & Hf). now rewrite Hf.
Qed.

(** *** Which exception for which failure *)













(** ** From the answer to the line *)

(** The step for a lookup that returns strings: one line, by the two
    formats. *)
Lemma process_word_found
    (net : nat -> str -> option response) (py_str : pyval -> str)
    (py_eq : pyval -> pyval -> bool) total word st surface reading defs :
  (forall s, py_str (PStr s) = s) ->
  (forall a b, py_eq (PStr a) (PStr b) = str_eqb a b) ->
  get_definitions (net (sent st)) word
  = Ok (Some (PStr surface, PStr reading, map PStr defs)) ->
  outfile (state_of (process_word net py_str py_eq total word st))
  = outfile st
      ++ (if str_eqb surface reading
          then reading ++ lit ";" ++ join (lit ", ") defs ++ lit ";" ++ [LF]
          else surface ++ lit "[" ++ reading ++ lit "];"
                 ++ join (lit ", ") defs ++ lit ";" ++ [LF]).
Proof.
  intros Hstr Heq Hg.
  unfold process_word. cbv zeta. simpl sent. rewrite Hg.
  unfold record_result, format_record.
  rewrite Heq, !Hstr, py_join_strings.
  destruct (str_eqb surface reading); simpl;
    unfold report_progress; cbv zeta;
    destruct (py_truediv _ total); reflexivity.
Qed.

(** X16: from the answer to the line.  When the service answers a word
    with status 200 and a body of the documented shape whose first entry has
    a first form with a non-empty reading and some definition among its
    first three senses, the step writes one line.  For a form without a
    [word] key (a word written in kana), or whose word is its reading, the
    line is [reading;definitions;]; for a form with another, non-empty
    word it is [word[reading];definitions;]. *)
Theorem shaped_answer_record
    (net : nat -> str -> option response) (py_str : pyval -> str)
    (py_eq : pyval -> pyval -> bool)
    (total : Z) (word : str) (st : run) (resp : response) (body : pyval)
    (e : entry) (rest : list entry) (f : japanese_form)
    (forms : list japanese_form) (r : str) :
  (forall s, py_str (PStr s) = s) ->
  (forall a b, py_eq (PStr a) (PStr b) = str_eqb a b) ->
  net (sent st) (SEARCH_URL ++ word) = Some resp ->
  status_code resp = 200%Z ->
  json resp = Some body ->
  is_body body (e :: rest) ->
  japanese e = f :: forms ->
  form_reading f = Some r ->
  r <> [] ->
  definitions_of e <> [] ->
  let st' := state_of (process_word net py_str py_eq total word st) in
  (form_word f = None \/ form_word f = Some r ->
   outfile st'
   = outfile st ++ r ++ lit ";" ++ join (lit ", ") (definitions_of e)
       ++ lit ";" ++ [LF])
  /\ (forall s,
        form_word f = Some s -> s <> [] -> s <> r ->
        outfile st'
        = outfile st ++ s ++ lit "[" ++ r ++ lit "];"
            ++ join (lit ", ") (definitions_of e) ++ lit ";" ++ [LF]).
Proof.
  intros Hstr Heq Hr Hs Hj Hb Hf Hrd Hne Hd st'.
  assert (Hg : forall s,
             surface_of f = Some s -> s <> [] ->
             get_definitions (net (sent st)) word
             = Ok (Some (PStr s, PStr r, map PStr (definitions_of e)))).
  { intros s Hsf Hs0.
    rewrite (get_definitions_shaped _ _ _ _ _ Hr Hs Hj Hb).
    apply spec_lookup_some.
    exists e, rest, f, forms, r, s. now repeat split. }
  split.
  - intro Hw.
    assert (Hsf : surface_of f = Some r).
    { unfold surface_of. destruct Hw as [-> | ->]; [exact Hrd | reflexivity]. }
    subst st'.
    rewrite (process_word_found net py_str py_eq total word st r r
               (definitions_of e) Hstr Heq (Hg r Hsf Hne)).
    now rewrite (proj2 (str_eqb_eq r r) eq_refl).
  - intros s Hw Hs0 Hsr.
    assert (Hsf : surface_of f = Some s).
    { unfold surface_of. now rewrite Hw. }
    subst st'.
    rewrite (process_word_found net py_str py_eq total word st s r
               (definitions_of e) Hstr Heq (Hg s Hsf Hs0)).
    destruct (str_eqb s r) eqn:E; [|reflexivity].
    apply str_eqb_eq in E. contradiction.
Qed.

(** ** Worked instances of the further properties *)

Lemma inu_token_clean : clean_token (lit "犬").
Proof. repeat split. discriminate. Defined.

Lemma neko_token_clean : clean_token (lit "猫").
Proof. repeat split. discriminate. Defined.

(** X2 on the line [ 犬, 猫] with its newline. *)
Lemma words_of_joined_line_witness :
  words (lit " " ++ join (lit ", ") [lit "犬"; lit "猫"] ++ [LF])
  = [lit "犬"; lit "猫"].
Proof.
  apply (words_of_joined_line [lit "犬"; lit "猫"] (lit ", ") (lit " ") [LF]).
  - repeat constructor; [apply inu_token_clean | apply neko_token_clean].
  - discriminate.
  - reflexivity.
  - reflexivity.
  - reflexivity.
Defined.

(** X3 on [犬 猫] cut at the Japanese comma from [鳥]. *)
Lemma words_at_separator_witness :
  words (lit "犬 猫" ++ IDEOGRAPHIC_COMMA :: lit "鳥")
  = words (lit "犬 猫") ++ words (lit "鳥").
Proof.
  apply (words_at_separator (lit "犬 猫") (lit "鳥") IDEOGRAPHIC_COMMA).
  reflexivity.
Defined.

(** X6 on the file [犬, 猫]: two labels, the fractions 1/3 and 2/3, the
    clearing. *)
Lemma completed_run_calls_witness :
  ui_calls (snd (process_file inu_dictionary str_of eq_of IN_TXT OUT_TXT
                   two_words_world))
  = [] ++ progress_calls (total_words (lit "犬, 猫" ++ [LF])) 0
            (file_words (lit "犬, 猫" ++ [LF]))
       ++ [ClearCheckingLabel].
Proof.
  apply (completed_run_calls inu_dictionary str_of eq_of IN_TXT OUT_TXT
           (lit "犬, 猫" ++ [LF]) two_words_world).
  - reflexivity.
  - intro H. vm_compute in H. discriminate H.
  - vm_compute. reflexivity.
Defined.

(** X7 on the file [犬, 猫]: two requests. *)
Lemma completed_run_requests_witness :
  requests_sent (snd (process_file inu_dictionary str_of eq_of IN_TXT
                        OUT_TXT two_words_world))
  = (0 + length (file_words (lit "犬, 猫" ++ [LF])))%nat.
Proof.
  apply (completed_run_requests inu_dictionary str_of eq_of IN_TXT OUT_TXT
           (lit "犬, 猫" ++ [LF]) two_words_world).
  - reflexivity.
  - intro H. vm_compute in H. discriminate H.
  - vm_compute. reflexivity.
Defined.


(** X9 on a file given as its own output. *)
Lemma same_path_witness :
  process_file inu_dictionary str_of eq_of IN_TXT IN_TXT two_words_world
  = (Ok tt,
     World (write_file (files two_words_world) IN_TXT [])
           (requests_sent two_words_world)
           (ui_calls two_words_world ++ [ClearCheckingLabel])).
Proof.
  apply (same_path_empties_file inu_dictionary str_of eq_of IN_TXT
           (lit "犬, 猫" ++ [LF]) two_words_world).
  reflexivity.
Defined.

(** X10: the input file after a run that wrote elsewhere. *)
Lemma other_files_witness :
  files (snd (process_file inu_dictionary str_of eq_of IN_TXT OUT_TXT
                two_words_world)) IN_TXT
  = files two_words_world IN_TXT.
Proof.
  apply (other_files_untouched inu_dictionary str_of eq_of IN_TXT OUT_TXT
           IN_TXT two_words_world).
  intro H. vm_compute in H. discriminate H.
Defined.

(** X11 on the answer for 犬. *)
Lemma returned_triple_witness :
  py_truthy (PStr (lit "犬")) = true /\ py_truthy (PStr (lit "いぬ")) = true
  /\ (1 <= length [PStr (lit "dog")] <= 3)%nat.
Proof.
  apply (returned_triple_bounds (inu_dictionary 0) (lit "犬")).
  vm_compute. reflexivity.
Defined.

(** X12 on the answer with an empty word. *)
Lemma false_word_witness :
  get_definitions (fun _ => Some empty_word_response) (lit "いぬ") = Ok None
  \/ exists e,
      get_definitions (fun _ => Some empty_word_response) (lit "いぬ")
      = Raise e.
Proof.
  eapply (false_word_is_not_replaced (fun _ => Some empty_word_response)
            (lit "いぬ") empty_word_response).
  - reflexivity.
  - reflexivity.
  - reflexivity.
  - vm_compute. reflexivity.
  - vm_compute. reflexivity.
  - vm_compute. reflexivity.
  - reflexivity.
Defined.

Lemma inu_long_body_shape :
  exists body,
    json inu_long_response = Some body /\ is_body body inu_long_data.
Proof.
  eexists. split; [reflexivity|].
  eexists _, _. split; [reflexivity|]. split; [vm_compute; reflexivity|].
  constructor; [|constructor; [|constructor]].
  - eexists _, _, _. split; [reflexivity|].
    split; [vm_compute; reflexivity|]. split; [|split].
    + repeat constructor; (eexists; split; [reflexivity|];
                           split; vm_compute; reflexivity).
    + vm_compute; reflexivity.
    + repeat constructor; (eexists; split; [reflexivity|];
                           vm_compute; reflexivity).
  - eexists _, _, _. split; [reflexivity|].
    split; [vm_compute; reflexivity|]. split; [|split].
    + repeat constructor. eexists. split; [reflexivity|].
      split; vm_compute; reflexivity.
    + vm_compute; reflexivity.
    + constructor.
Defined.

Lemma inu_three_body_shape :
  exists body,
    json inu_three_response = Some body /\ is_body body inu_three_data.
Proof.
  eexists. split; [reflexivity|].
  eexists _, _. split; [reflexivity|]. split; [vm_compute; reflexivity|].
  repeat constructor.
  eexists _, _, _. split; [reflexivity|].
  split; [vm_compute; reflexivity|]. split; [|split].
  - repeat constructor. eexists. split; [reflexivity|].
    split; vm_compute; reflexivity.
  - vm_compute; reflexivity.
  - repeat constructor; (eexists; split; [reflexivity|];
                         vm_compute; reflexivity).
Defined.

(** X13: the short and the long answer for 犬 give the same result. *)
Lemma lookup_depends_witness :
  get_definitions (fun _ => Some inu_three_response) (lit "犬")
  = get_definitions (fun _ => Some inu_long_response) (lit "いぬ").
Proof.
  destruct inu_three_body_shape as (b1 & Hj1 & Hb1).
  destruct inu_long_body_shape as (b2 & Hj2 & Hb2).
  apply (lookup_depends_on_first_entry
           (fun _ => Some inu_three_response)
           (fun _ => Some inu_long_response)
           (lit "犬") (lit "いぬ") inu_three_response inu_long_response b1 b2
           _ _ _ _ eq_refl eq_refl eq_refl eq_refl Hj1 Hj2 Hb1 Hb2);
    reflexivity.
Defined.

Lemma no_forms_body_shape :
  exists body,
    json no_forms_response = Some body /\ is_body body [Entry [] []].
Proof.
  eexists. split; [reflexivity|].
  eexists _, _. split; [reflexivity|]. split; [vm_compute; reflexivity|].
  repeat constructor.
  eexists _, _, _. split; [reflexivity|].
  split; [vm_compute; reflexivity|]. split; [constructor|].
  split; [vm_compute; reflexivity | constructor].
Defined.

(** X14 on the answer without forms. *)
Lemma shaped_body_raises_witness :
  get_definitions (fun _ => Some no_forms_response) (lit "犬")
  = Raise IndexError.
Proof.
  destruct no_forms_body_shape as (b & Hj & Hb).
  apply (shaped_body_raises_iff (fun _ => Some no_forms_response) (lit "犬")
           no_forms_response b [Entry [] []] IndexError eq_refl eq_refl Hj
           Hb).
  split; [reflexivity|]. now exists (Entry [] []), [].
Defined.


Lemma kana_body_shape :
  exists body, json kana_response = Some body /\ is_body body kana_data.
Proof.
  eexists. split; [reflexivity|].
  eexists _, _. split; [reflexivity|]. split; [vm_compute; reflexivity|].
  repeat constructor.
  eexists _, _, _. split; [reflexivity|].
  split; [vm_compute; reflexivity|]. split; [|split].
  - repeat constructor. eexists. split; [reflexivity|].
    split; vm_compute; reflexivity.
  - vm_compute; reflexivity.
  - repeat constructor. eexists. split; [reflexivity|].
    vm_compute; reflexivity.
Defined.

(** X16 on the answer for いぬ in kana: the line has no brackets. *)
Lemma shaped_answer_record_witness :
  outfile (state_of (process_word kana_dictionary str_of eq_of 1 (lit "いぬ")
                       (Run [] [] 0 0 [])))
  = [] ++ lit "いぬ" ++ lit ";" ++ join (lit ", ") [lit "dog"] ++ lit ";"
       ++ [LF].
Proof.
  destruct kana_body_shape as (b & Hj & Hb).
  apply (proj1 (shaped_answer_record kana_dictionary str_of eq_of 1
                  (lit "いぬ") (Run [] [] 0 0 []) kana_response b
                  (Entry [JapaneseForm None (Some (lit "いぬ"))]
                         [Sense [lit "dog"]])
                  [] (JapaneseForm None (Some (lit "いぬ"))) [] (lit "いぬ")
                  (fun s => eq_refl) (fun a b => eq_refl)
                  eq_refl eq_refl Hj Hb eq_refl eq_refl
                  ltac:(discriminate) ltac:(discriminate))).
  now left.
Defined.

(** ** Records that cannot be written *)

Lemma mapM_strings_raise (l : list pyval) (e : exn) :
  mapM (fun v => match v with
                 | PStr s => Ok s
                 | _ => Raise TypeError
                 end) l = Raise e
  <-> e = TypeError /\ Exists (fun v => forall s, v <> PStr s) l.
Proof.
  induction l as [|v l IH]; simpl.
  - split; [discriminate|]. intros [_ H]. inversion H.
  - assert (Hother : (forall s, v <> PStr s) ->
              @Raise (list str) TypeError = Raise e
              <-> e = TypeError
                  /\ Exists (fun v => forall s, v <> PStr s) (v :: l)).
    { intro Hv. split.
      - intros [= <-]. split; [reflexivity | now left].
      - now intros [-> _]. }
    destruct v as [| | | |s| |]; simpl;
      try (apply Hother; intros s0; discriminate).
    clear Hother.
    destruct (mapM _ l) as [parts|e'] eqn:Hl; simpl.
    + split; [discriminate|]. intros [He H].
      inversion_clear H as [? ? Hv|? ? Hl'].
      * now destruct (Hv s).
      * pose proof (proj2 IH (conj He Hl')) as Hc. discriminate Hc.
    + split.
      * intros [= <-]. destruct (proj1 IH eq_refl) as [He H].
        split; [exact He | now right].
      * intros [He H]. inversion_clear H as [? ? Hv|? ? Hl'].
        -- now destruct (Hv s).
        -- now rewrite (proj2 IH (conj He Hl')).
Qed.

(** X17: the record of a lookup result cannot be formatted exactly when
    one of its definitions is not a string, and the exception is then
    [TypeError], whatever the surface form and the reading are. *)
Theorem format_record_raises_iff
    (py_str : pyval -> str) (py_eq : pyval -> pyval -> bool)
    (japanese_word reading : pyval) (definitions : list pyval) (e : exn) :
  format_record py_str py_eq japanese_word reading definitions = Raise e
  <-> e = TypeError /\ Exists (fun v => forall s, v <> PStr s) definitions.
Proof.
  rewrite <- mapM_strings_raise. unfold format_record, py_join.
  destruct (py_eq japanese_word reading);
    destruct (mapM _ definitions); simpl; split; intro H;
    first [discriminate H | injection H as ->; reflexivity].
Qed.

(** X17 on a definition that is a number. *)
Lemma format_record_raises_witness :
  format_record str_of eq_of (PStr (lit "犬")) (PStr (lit "いぬ"))
    [PStr (lit "dog"); PInt 7]
  = Raise TypeError.
Proof.
  apply (format_record_raises_iff str_of eq_of (PStr (lit "犬"))
           (PStr (lit "いぬ")) [PStr (lit "dog"); PInt 7] TypeError).
  split; [reflexivity|]. right. left. intros s. discriminate.
Defined.
